(** * Intel Briefing: lead scoring (V2EX radar) and link validation

    A shallow embedding of

    - [src/sensors/v2ex_radar.py]: [V2EXRadar._analyze_content],
      [V2EXRadar._clean_summary] and the lead loop and final sort of
      [V2EXRadar.fetch_leads];
    - [src/utils/verifier.py]: [verify_link];
    - [src/intel_collector.py]: [validate_grok_report] and the social
      section of [fetch_all_sources];
    - [src/sensors/x_grok_sensor.py]: [fetch_grok_intel];
    - [run_bounty_hunter.py]: the lead selection of [main] and the urgency
      icon of [generate_report];
    - [run_alpha_radar.py]: the link verification of [run_alpha_scan];

    followed by the properties of these functions.

    Python [str] values are sequences of Unicode code points, so a string
    is a [list N].  Literals are written as UTF-8 string constants and
    decoded once by [PyStr.u]. *)

From Stdlib Require Import Ascii String.
From Stdlib Require Import List Bool Arith NArith ZArith Lia.
From Stdlib Require Import Sorted Permutation.
From Stdlib Require Import DecimalString.
Import ListNotations.

Set Implicit Arguments.

(* ================================================================= *)
(** ** Python strings *)

Module PyStr.

Definition char := N.
Definition str := list char.

Definition char_eqb (a b : char) : bool := N.eqb a b.

(** The code point of an ASCII character. *)
Definition chr (a : ascii) : char := N_of_ascii a.

(** [a == b] on strings. *)
Fixpoint eqb (a b : str) : bool :=
  match a, b with
  | [], [] => true
  | x :: a', y :: b' => char_eqb x y && eqb a' b'
  | _, _ => false
  end.

(** [s.startswith(p)]. *)
Fixpoint startswith (p s : str) : bool :=
  match p, s with
  | [], _ => true
  | x :: p', y :: s' => char_eqb x y && startswith p' s'
  | _ :: _, [] => false
  end.

(** [k in s]: [k] occurs in [s] as a contiguous run of code points. *)
Fixpoint contains (k s : str) : bool :=
  startswith k s ||
  match s with
  | [] => false
  | _ :: s' => contains k s'
  end.

(** [sep.join(parts)]. *)
Fixpoint join (sep : str) (parts : list str) : str :=
  match parts with
  | [] => []
  | [p] => p
  | p :: rest => p ++ sep ++ join sep rest
  end.

(** [x in xs] for a list of strings. *)
Definition mem (x : str) (xs : list str) : bool := existsb (eqb x) xs.

(** *** Literals: UTF-8 decoding of string constants *)

Definition cont (b : N) : N := N.land b 63.

Fixpoint decode (bs : list N) : str :=
  match bs with
  | [] => []
  | b :: r =>
      if (b <? 128)%N then b :: decode r
      else if (b <? 224)%N then
        match r with
        | b1 :: r1 => (N.land b 31 * 64 + cont b1)%N :: decode r1
        | _ => []
        end
      else if (b <? 240)%N then
        match r with
        | b1 :: b2 :: r2 =>
            (N.land b 15 * 4096 + cont b1 * 64 + cont b2)%N :: decode r2
        | _ => []
        end
      else
        match r with
        | b1 :: b2 :: b3 :: r3 =>
            (N.land b 7 * 262144 + cont b1 * 4096 + cont b2 * 64 + cont b3)%N
              :: decode r3
        | _ => []
        end
  end.

Definition u (s : string) : str :=
  decode (map N_of_ascii (list_ascii_of_string s)).

(** [str(n)] for an integer. *)
Definition str_of_int (n : Z) : str :=
  u (NilZero.string_of_int (Z.to_int n)).

(** *** ASCII case folding

    [str.lower] is a builtin driven by the Unicode case tables.  The
    functions that call it take it as a parameter; [ascii_lower] is the
    mapping it performs on text whose only cased characters are the ASCII
    letters (CJK ideographs, digits and punctuation have no case). *)

Definition lower_char (c : char) : char :=
  if ((65 <=? c) && (c <=? 90))%N then (c + 32)%N else c.

Definition ascii_lower (s : str) : str := map lower_char s.

End PyStr.

(* ================================================================= *)
(** ** Regular-expression scanning

    [re.findall], [re.sub] and [str.replace] all walk the subject from
    left to right, take the leftmost match, and resume right after it
    (matches never overlap).  [scan] is that walk: [m] tells, for the text
    starting at the current position, whether the pattern matches there,
    with what value and over how many code points.  Every pattern used
    in the program consumes at least one code point. *)

Module Re.
Import PyStr.

Inductive piece (A : Type) : Type :=
| Lit (c : char)
| Hit (a : A).
Arguments Lit {A} c.
Arguments Hit {A} a.

Section Scan.
Variable A : Type.
(** [m s = Some (a, n)]: the pattern matches a prefix of [s] of length
    [S n] and yields [a]. *)
Variable m : str -> option (A * nat).

(** [skip] counts the code points of the current match still to be
    stepped over. *)
Fixpoint scan_from (skip : nat) (s : str) : list (piece A) :=
  match s with
  | [] => []
  | c :: r =>
      match skip with
      | S k => scan_from k r
      | O =>
          match m s with
          | Some (a, n) => Hit a :: scan_from n r
          | None => Lit c :: scan_from 0 r
          end
      end
  end.

Definition scan (s : str) : list (piece A) := scan_from 0 s.

(** [re.findall]: the values of the matches, in order. *)
Fixpoint hits (ps : list (piece A)) : list A :=
  match ps with
  | [] => []
  | Lit _ :: r => hits r
  | Hit a :: r => a :: hits r
  end.

(** [re.sub] with replacement [repl]. *)
Fixpoint subst (repl : A -> str) (ps : list (piece A)) : str :=
  match ps with
  | [] => []
  | Lit c :: r => c :: subst repl r
  | Hit a :: r => repl a ++ subst repl r
  end.
End Scan.

(** [span_until c s]: the code points of [s] before the first [c], and
    what follows that [c]. *)
Fixpoint span_until (c : char) (s : str) : option (str * str) :=
  match s with
  | [] => None
  | x :: r =>
      if char_eqb x c then Some ([], r)
      else match span_until c r with
           | Some (a, b) => Some (x :: a, b)
           | None => None
           end
  end.

End Re.

(* ================================================================= *)
(** ** [sensors/v2ex_radar.py] *)

Module V2EXRadar.
Import PyStr.

Record Lead : Type := mkLead {
  source : str;
  title : str;
  url : str;
  summary : str;
  posted_date : str;
  tags : list str;
  desperation_score : Z
}.

(** One [<item>] of a feed as the loop of [fetch_leads] holds it when it
    reaches the call of [_analyze_content]: the feed it came from and the
    texts of its [title], [link], [description] and [pubDate] children
    ([None] texts already replaced by the empty string).  Fetching,
    XML parsing and the age filter happen before that point. *)
Record RawItem : Type := mkRawItem {
  category : str;
  item_title : str;
  item_link : str;
  item_description : str;
  item_pubDate : str
}.

Definition MONEY_KEYWORDS : list str :=
  [u "外包"; u "兼职"; u "有偿"; u "预算"; u "报价"; u "招"; u "急"; u "付费"].

Definition PAIN_KEYWORDS : list str :=
  [u "求助"; u "帮忙"; u "不懂"; u "救命"; u "怎么做"; u "太难"; u "崩溃";
   u "无法"; u "报错"].

Definition DESPERATION_KEYWORDS : list str :=
  [u "在线等"; u "有偿"; u "急"; u "救命"; u "红包"; u "崩溃"; u "求大佬";
   u "付费解决"].

Definition TECH_KEYWORDS : list str :=
  [u "FPGA"; u "Verilog"; u "Python"; u "爬虫"; u "脚本"; u "Web3";
   u "Solana"; u "Rust"; u "图像"; u "视觉"; u "识别"; u "抠图";
   u "Automation"; u "Bot"].

Definition tag_money : str := u "💰Money".
Definition tag_pain : str := u "🚑Pain".
Definition tag_urgent : str := u "🔥Urgent".
Definition tag_tech (tech_matches : list str) : str :=
  u "🛠️" ++ join (u ",") tech_matches.

(** The pattern ['<[^<]+?>']: a ['<'], then one or more code points
    other than ['<'], as few as possible, then ['>'].  [close_at s] is
    the position of the ['>'] that ends the lazy repetition when its
    first code point has been taken and [s] follows. *)
Fixpoint close_at (s : str) : option nat :=
  match s with
  | [] => None
  | c :: r =>
      if char_eqb c (chr ">") then Some 0
      else if char_eqb c (chr "<") then None
      else option_map S (close_at r)
  end.

Definition html_tag (s : str) : option (unit * nat) :=
  match s with
  | lt :: c1 :: r =>
      if char_eqb lt (chr "<") && negb (char_eqb c1 (chr "<"))
      then option_map (fun i => (tt, S (S i))) (close_at r)
      else None
  | _ => None
  end.

Definition _clean_summary (html_content : str) : str :=
  let clean := Re.subst (fun _ => []) (Re.scan html_tag html_content) in
  if 200 <? length clean then firstn 200 clean ++ u "..." else clean.

(** [list.sort(key=key)]: stable, ascending in the key. *)
Section Sort.
Variable T : Type.
Variable key : T -> Z.

Fixpoint insert (x : T) (l : list T) : list T :=
  match l with
  | [] => [x]
  | y :: r => if (key x <=? key y)%Z then x :: l else y :: insert x r
  end.

Definition sort (l : list T) : list T := fold_right insert [] l.

(** [list.sort(key=key, reverse=True)]: the list is reversed, sorted
    as above, and reversed again, so that elements with equal keys
    keep their original order. *)
Definition sort_reverse (l : list T) : list T := rev (sort (rev l)).
End Sort.

Section Analyze.
(** [str.lower]. *)
Variable lower : str -> str.

(** [any(k in text for k in [k.lower() for k in keywords])] *)
Definition any_keyword (keywords : list str) (text : str) : bool :=
  existsb (fun k => contains k text) (map lower keywords).

Definition _analyze_content (title content : str) : list str * Z :=
  let text := lower (title ++ content) in
  let found_tags : list str := [] in
  let score := 0%Z in
  (* Check Money *)
  let '(found_tags, score) :=
    if any_keyword MONEY_KEYWORDS text
    then (found_tags ++ [tag_money], score + 20)%Z
    else (found_tags, score) in
  (* Check Pain *)
  let '(found_tags, score) :=
    if any_keyword PAIN_KEYWORDS text
    then (found_tags ++ [tag_pain], score + 10)%Z
    else (found_tags, score) in
  (* Check Desperation *)
  let '(found_tags, score) :=
    if any_keyword DESPERATION_KEYWORDS text
    then (found_tags ++ [tag_urgent], score + 100)%Z
    else (found_tags, score) in
  (* Check Tech Matches *)
  let tech_matches :=
    filter (fun t => contains (lower t) text) TECH_KEYWORDS in
  let '(found_tags, score) :=
    match tech_matches with
    | _ :: _ => (found_tags ++ [tag_tech tech_matches], score + 30)%Z
    | [] => (found_tags, score)
    end in
  (* Lead Qualification: Needs (Money OR Pain OR Urgent) *)
  if mem tag_money found_tags || mem tag_pain found_tags
     || mem tag_urgent found_tags
  then
    match tech_matches with
    | _ :: _ => (found_tags, score + 50)%Z
    | [] => (found_tags, score)
    end
  else ([], 0%Z).

(** The body of the item loop of [fetch_leads]. *)
Definition lead_of (it : RawItem) : list Lead :=
  let '(tags, score) := _analyze_content (item_title it) (item_description it) in
  match tags with
  | _ :: _ =>
      [ mkLead (u "V2EX-" ++ category it) (item_title it) (item_link it)
               (_clean_summary (item_description it)) (item_pubDate it)
               tags score ]
  | [] => []
  end.

(** [fetch_leads] on the items of the feeds, in feed order. *)
Definition fetch_leads (items : list RawItem) : list Lead :=
  let all_leads := flat_map lead_of items in
  sort_reverse desperation_score all_leads.
End Analyze.

End V2EXRadar.

(* ================================================================= *)
(** ** Calls that may raise

    [httpx.head] and [httpx.get] either return a response or raise; what
    they do depends on the network, the [World].  [print] writes to the
    standard output and raises when the text cannot be encoded or the
    stream fails; the standard output is part of the world too.  A
    computation takes a world and yields a value or an exception, and the
    world it leaves. *)

Module Eff.

Inductive result (E A : Type) : Type :=
| Return (a : A)
| Raise (e : E).
Arguments Return {E A} a.
Arguments Raise {E A} e.

Definition M (W E A : Type) : Type := W -> result E A * W.

Definition ret {W E A} (a : A) : M W E A := fun w => (Return a, w).

Definition bind {W E A B} (m : M W E A) (f : A -> M W E B) : M W E B :=
  fun w =>
    match m w with
    | (Return a, w1) => f a w1
    | (Raise e, w1) => (Raise e, w1)
    end.

Definition raise {W E A} (e : E) : M W E A := fun w => (Raise e, w).

(** [try: m  except Exception as e: h e] *)
Definition try_except {W E A} (m : M W E A) (h : E -> M W E A) : M W E A :=
  fun w =>
    match m w with
    | (Return a, w1) => (Return a, w1)
    | (Raise e, w1) => h e w1
    end.

(** A computation on the world, run beside a second piece of state that
    it leaves alone. *)
Definition beside {W E A T : Type} (m : M W E A) : M (W * T) E A :=
  fun wl => let '(r, w') := m (fst wl) in (r, (w', snd wl)).

End Eff.

Declare Scope eff_scope.
Delimit Scope eff_scope with eff.
Notation "x <- m ;; k" := (Eff.bind m (fun x => k))
  (at level 61, m at next level, right associativity) : eff_scope.

(* ================================================================= *)
(** ** [utils/verifier.py] and [intel_collector.py] *)

Module Collector.
Import PyStr Eff.

Definition skip_domains : list str :=
  [u "twitter.com"; u "x.com"; u "weibo.com"; u "xiaohongshu.com"].

(** [any(domain in url for domain in skip_domains)] *)
Definition skipped (url : str) : bool :=
  existsb (fun domain => contains domain url) skip_domains.

(** [https?://] at the head of [s]: the scheme and what follows it.  An
    ['s'] after ["http"] is taken by [s?]; giving it back would leave it
    in front of [://], which cannot match. *)
Definition scheme (s : str) : option (str * str) :=
  if startswith (u "http") s then
    let r := skipn 4 s in
    let '(opt_s, r) :=
      match r with
      | c :: r' => if char_eqb c (chr "s") then ([c], r') else ([], r)
      | [] => ([], r)
      end in
    if startswith (u "://") r
    then Some (u "http" ++ opt_s ++ u "://", skipn 3 r)
    else None
  else None.

(** [link_pattern = r'\[([^\]]+)\]\((https?://[^\)]+)\)']: both character
    classes exclude the delimiter that must follow them, so each group
    ends at the first occurrence of its delimiter.  The value of a match
    is the pair of its two groups. *)
Definition link_pattern (s : str) : option ((str * str) * nat) :=
  match s with
  | c :: r =>
      if char_eqb c (chr "[") then
        match Re.span_until (chr "]") r with
        | Some (title, r1) =>
            match title, r1 with
            | _ :: _, c1 :: r2 =>
                if char_eqb c1 (chr "(") then
                  match scheme r2 with
                  | Some (sch, r3) =>
                      match Re.span_until (chr ")") r3 with
                      | Some (rest, _) =>
                          match rest with
                          | _ :: _ =>
                              Some ((title, sch ++ rest),
                                    length title + 3 + length sch
                                    + length rest)
                          | [] => None
                          end
                      | None => None
                      end
                  | None => None
                  end
                else None
            | _, _ => None
            end
        | None => None
        end
      else None
  | [] => None
  end.

(** [re.findall(link_pattern, s)] *)
Definition findall_links (s : str) : list (str * str) :=
  Re.hits (Re.scan link_pattern s).

(** [s.replace(old, new)] *)
Definition replace (old new s : str) : str :=
  match old with
  | [] => new ++ flat_map (fun c => c :: new) s
  | _ :: old' =>
      Re.subst (fun _ : unit => new)
        (Re.scan (fun t => if startswith old t
                           then Some (tt, length old') else None) s)
  end.

Definition old_link (title url : str) : str :=
  u "[" ++ title ++ u "](" ++ url ++ u ")".

Definition new_link (title url : str) : str :=
  u "[" ++ title ++ u "](" ++ url ++ u ") **(⚠️ 链接验证失败/404)**".

Section Net.
Variable World : Type.
(** The exceptions derived from [Exception]. *)
Variable Exn : Type.
(** [print(text)] *)
Variable print : str -> M World Exn unit.
(** [str(e)], as an f-string formats an exception. *)
Variable str_of_exn : Exn -> str.
(** [httpx.head(url, ...).status_code] and [httpx.get(url, ...).status_code] *)
Variable http_head : str -> M World Exn Z.
Variable http_get : str -> M World Exn Z.

Local Open Scope eff_scope.

Definition verify_link (url : str) : M World Exn bool :=
  try_except
    (status_code <- http_head url ;;
     if (status_code =? 200)%Z then ret true
     else if (status_code =? 404)%Z then ret false
     else
       status_code <- http_get url ;;
       ret (status_code =? 200)%Z)
    (fun e =>
       _ <- print (u "  ⚠️ Link Verification Error (" ++ url ++ u "): "
                   ++ str_of_exn e) ;;
       ret false).

(** Whether [from utils.verifier import verify_link] succeeded. *)
Variable VERIFIER_AVAILABLE : bool.

(** The [for title, url in matches] loop. *)
Fixpoint validate_loop (matches : list (str * str)) (validated_content : str)
  : M World Exn str :=
  match matches with
  | [] => ret validated_content
  | (title, url) :: rest =>
      if skipped url then validate_loop rest validated_content
      else
        is_valid <- verify_link url ;;
        if negb is_valid then
          let validated_content :=
            replace (old_link title url) (new_link title url)
                    validated_content in
          _ <- print (u "    ❌ INVALID: " ++ url) ;;
          validate_loop rest validated_content
        else
          _ <- print (u "    ✅ Valid: " ++ firstn 50 url ++ u "...") ;;
          validate_loop rest validated_content
  end.

Definition validate_grok_report (markdown_content : str) : M World Exn str :=
  if negb VERIFIER_AVAILABLE then ret markdown_content
  else
    let matches := findall_links markdown_content in
    match matches with
    | [] => ret markdown_content
    | _ :: _ =>
        _ <- print (u "  [*] Validating "
                    ++ str_of_int (Z.of_nat (length matches))
                    ++ u " links from Grok output...") ;;
        validate_loop matches markdown_content
    end.
End Net.

End Collector.

(* ================================================================= *)
(** ** [sensors/v2ex_radar.py]: [fetch_leads] with its feeds

    The feed loop of [fetch_leads] as it stands: a feed whose download or
    parsing raises is given up, an item with a missing child raises in
    the middle of its feed, and an item older than [days] is passed over.
    The accumulator [all_leads] is the state; the exceptions are those
    the [except Exception] of the feed catches. *)

Module V2EXFeeds.
Import PyStr V2EXRadar Eff.

(** An [<item>] element by its four children: for each, [None] when
    [item.find(tag)] finds no child, otherwise the child's [.text],
    itself [None] for a child without text. *)
Record Element : Type := mkElement {
  find_title : option (option str);
  find_link : option (option str);
  find_description : option (option str);
  find_pubDate : option (option str)
}.

(** What [client.get], [raise_for_status], [ET.fromstring] and
    [root.findall(".//item")] give for a feed: an exception, or the items. *)
Inductive response : Type :=
| Failure
| Items (items : list Element).

(** The keys of [RSS_FEEDS], in the order of the dictionary. *)
Definition RSS_FEEDS : list str := [u "global"; u "jobs"].

Section Fetch.
Variable lower : str -> str.
(** [datetime.strptime(pub_date_str, ...)] and
    [(datetime.now(timezone.utc) - pub_date).days]: [None] when
    [strptime] raises. *)
Variable age_days : str -> option Z.
Variable days : Z.
(** The response for the feed of a category. *)
Variable get : str -> response.

Local Open Scope eff_scope.

(** [item.find(tag).text or ""] *)
Definition text_or_empty (child : option (option str))
  : M (list Lead) unit str :=
  match child with
  | None => fun all_leads => (Raise tt, all_leads)
  | Some None => ret []
  | Some (Some s) => ret s
  end.

(** [all_leads.append(lead)] *)
Definition append (lead : Lead) : M (list Lead) unit unit :=
  fun all_leads => (Return tt, all_leads ++ [lead]).

(** Whether the date check says [continue]; an exception in it is
    passed. *)
Definition too_old (pub_date_str : str) : bool :=
  match age_days pub_date_str with
  | Some d => (days <? d)%Z
  | None => false
  end.

Fixpoint item_loop (category : str) (items : list Element)
  : M (list Lead) unit unit :=
  match items with
  | [] => ret tt
  | item :: rest =>
      title <- text_or_empty (find_title item) ;;
      link <- text_or_empty (find_link item) ;;
      description <- text_or_empty (find_description item) ;;
      pub_date_str <- text_or_empty (find_pubDate item) ;;
      if too_old pub_date_str then item_loop category rest
      else
        let '(tags, score) := _analyze_content lower title description in
        match tags with
        | _ :: _ =>
            _ <- append (mkLead (u "V2EX-" ++ category) title link
                           (_clean_summary description) pub_date_str
                           tags score) ;;
            item_loop category rest
        | [] => item_loop category rest
        end
  end.

(** The body of [for category, url in self.RSS_FEEDS.items()]. *)
Definition feed (category : str) : M (list Lead) unit unit :=
  try_except
    (match get category with
     | Failure => fun all_leads => (Raise tt, all_leads)
     | Items items => item_loop category items
     end)
    (fun _ => ret tt).

Fixpoint feeds (categories : list str) : M (list Lead) unit unit :=
  match categories with
  | [] => ret tt
  | category :: rest => _ <- feed category ;; feeds rest
  end.

Definition fetch_leads : list Lead :=
  let all_leads := snd (feeds RSS_FEEDS []) in
  sort_reverse desperation_score all_leads.
End Fetch.

End V2EXFeeds.

(* ================================================================= *)
(** ** [run_bounty_hunter.py] *)

Module BountyHunter.
Import PyStr V2EXRadar.

(** [l[:n]] *)
Definition slice_to (A : Type) (n : Z) (l : list A) : list A :=
  if (0 <=? n)%Z then firstn (Z.to_nat n) l
  else firstn (Z.to_nat (Z.of_nat (length l) + n)) l.

(** The selection of [main] on the leads of the radar, [limit] being
    [args.limit]. *)
Definition high_value_leads (limit : Z) (leads : list Lead) : list Lead :=
  let high_value_leads :=
    filter (fun l => (0 <? desperation_score l)%Z) leads in
  let high_value_leads := sort_reverse desperation_score high_value_leads in
  slice_to limit high_value_leads.

(** The icon [generate_report] puts before the title of a lead. *)
Definition urgency_icon (lead : Lead) : str :=
  if (100 <=? desperation_score lead)%Z then u "🔥"
  else if (50 <=? desperation_score lead)%Z then u "⚠️"
  else u "💼".

End BountyHunter.

(* ================================================================= *)
(** ** [run_alpha_radar.py]

    [re.sub(pattern, verify_match, report_content)]: the callback is
    called on each match, from left to right, and the text of the match
    is replaced by what it returns. *)

Module AlphaRadar.
Import PyStr Eff Collector.

(** The match object of the link pattern: [group(0)], [group(1)] and
    [group(2)]. *)
Definition link_match (s : str) : option ((str * str * str) * nat) :=
  match link_pattern s with
  | Some ((text, url), n) => Some ((firstn (S n) s, text, url), n)
  | None => None
  end.

Section Sub.
Variables World Exn A : Type.
Variable repl : A -> M World Exn str.

Local Open Scope eff_scope.

(** [re.sub] with a function as replacement. *)
Fixpoint sub_with (ps : list (Re.piece A)) : M World Exn str :=
  match ps with
  | [] => ret []
  | Re.Lit c :: r => rest <- sub_with r ;; ret (c :: rest)
  | Re.Hit a :: r => x <- repl a ;; rest <- sub_with r ;; ret (x ++ rest)
  end.
End Sub.

Section Net.
Variables World Exn : Type.
(** [print(text)] and [print(text, end="", flush=True)] *)
Variable print : str -> M World Exn unit.
Variable print_inline : str -> M World Exn unit.
Variable str_of_exn : Exn -> str.
(** The [TypeError] that [re.sub] raises for a subject that is not a
    string. *)
Variable TypeError : Exn.
Variable http_head : str -> M World Exn Z.
Variable http_get : str -> M World Exn Z.

Local Open Scope eff_scope.

Definition verify_match (m : str * str * str) : M World Exn str :=
  let '(group0, text, url) := m in
  if negb (startswith (u "http") url) then ret group0
  else
    _ <- print_inline (u "  --> Checking: " ++ url ++ u " ...") ;;
    is_valid <- verify_link print str_of_exn http_head http_get url ;;
    if is_valid then
      _ <- print (u " ✅ OK") ;;
      ret group0
    else
      _ <- print (u " ❌ DEAD LINK") ;;
      ret (u "[" ++ text ++ u "](" ++ url
           ++ u ") **(⚠️ 自动核实: 链接无效/404)**").

(** The verification step of [run_alpha_scan]: the [re.sub] call on what
    [fetch_grok_intel] returned, a string or [None]. *)
Definition verify_report (report_content : option str) : M World Exn str :=
  match report_content with
  | Some s => sub_with verify_match (Re.scan link_match s)
  | None => raise TypeError
  end.
End Net.

End AlphaRadar.

(* ================================================================= *)
(** ** [sensors/x_grok_sensor.py] and the social section of
       [fetch_all_sources] *)

Module Grok.
Import PyStr Eff Collector.

(** The entry appended to [intel["social"]]. *)
Record SocialEntry : Type := mkSocialEntry {
  entry_source : str;
  entry_category : str;
  entry_content : str;
  entry_type : str
}.

Section Sensor.
Variables World Exn : Type.
(** [print(text)] *)
Variable print : str -> M World Exn unit.
(** [isinstance(e, httpx.HTTPStatusError)], with
    [e.response.status_code] and [e.response.text]. *)
Variable status_error : Exn -> option (Z * str).
(** [str(e)] *)
Variable str_of_exn : Exn -> str.
(** Whether [XAI_API_KEY] is set and not empty. *)
Variable XAI_API_KEY : bool.
(** [httpx.post], [raise_for_status], [response.json()] and
    [data['choices'][0]['message']['content']] for a query and a prompt:
    the content, a string or [None] for a JSON null, or the exception
    raised on the way. *)
Variable post : str -> option str -> M World Exn (option str).

Local Open Scope eff_scope.

(** What [print(content)] writes. *)
Definition printed (content : option str) : str :=
  match content with
  | Some s => s
  | None => u "None"
  end.

Definition fetch_grok_intel (query : str) (override_prompt : option str)
  : M World Exn (option str) :=
  if negb XAI_API_KEY then
    _ <- print (u "❌ Error: XAI_API_KEY not found in .env files.") ;;
    ret (Some (u "Error: No API Key."))
  else
    _ <- print (u "🦅 Grok Sensor: contacting xAI for '" ++ query
                ++ u "'...") ;;
    try_except
      (content <- post query override_prompt ;;
       _ <- print ([10%N] ++ repeat (chr "=") 60) ;;
       _ <- print (u "  🦅 Grok Intelligence Report: " ++ query) ;;
       _ <- print (repeat (chr "=") 60 ++ [10%N]) ;;
       _ <- print (printed content) ;;
       ret content)
      (fun e =>
         match status_error e with
         | Some (status_code, text) =>
             let err := u "⚠️ API Error: " ++ str_of_int status_code
                        ++ u " - " ++ text in
             _ <- print err ;;
             ret (Some err)
         | None =>
             let err := u "⚠️ Connection Error: " ++ str_of_exn e in
             _ <- print err ;;
             ret (Some err)
         end).

Variable http_head : str -> M World Exn Z.
Variable http_get : str -> M World Exn Z.
Variable VERIFIER_AVAILABLE : bool.
Variable GROK_AVAILABLE : bool.

(** [grok_report and "Error" not in grok_report] *)
Definition usable (grok_report : option str) : bool :=
  match grok_report with
  | None | Some [] => false
  | Some s => negb (contains (u "Error") s)
  end.

(** [intel["social"].append(entry)] *)
Definition append (entry : SocialEntry)
  : M (World * list SocialEntry) Exn unit :=
  fun ws => (Return tt, (fst ws, snd ws ++ [entry])).

(** The [if GROK_AVAILABLE:] block of [fetch_all_sources]; the list
    [intel["social"]] is carried beside the world. *)
Definition social_block : M (World * list SocialEntry) Exn unit :=
  if GROK_AVAILABLE then
    _ <- beside (print (u "[*] Fetching X (Twitter) via Grok API...")) ;;
    try_except
      (grok_report <- beside (fetch_grok_intel
                                (u "AI Agents, LLM, Tech Startups") None) ;;
       if usable grok_report then
         match grok_report with
         | Some report =>
             validated_report <-
               beside (validate_grok_report print str_of_exn
                         http_head http_get VERIFIER_AVAILABLE report) ;;
             _ <- append (mkSocialEntry (u "X (via Grok)") (u "X/Grok")
                            validated_report (u "markdown_report")) ;;
             beside
               (print
                  (u "  [INFO] Grok returned X intelligence report (links validated)."))
         | None => ret tt
         end
       else beside (print (u "  [WARN] Grok returned no data or error.")))
      (fun e =>
         beside (print (u "  [WARN] Grok API failed: " ++ str_of_exn e)))
  else ret tt.

(** What the block appends to an empty [intel["social"]]. *)
Definition social : M World Exn (list SocialEntry) :=
  fun w =>
    match social_block (w, []) with
    | (Return _, (w', entries)) => (Return entries, w')
    | (Raise e, (w', _)) => (Raise e, w')
    end.
End Sensor.

End Grok.

(* ================================================================= *)
(** ** Vocabulary of the properties *)

Module Props.
Import PyStr V2EXRadar Eff Collector.

(** The text [_analyze_content] scans for an item. *)
Definition item_text (lower : str -> str) (it : RawItem) : str :=
  lower (item_title it ++ item_description it).

Definition money_match (lower : str -> str) (text : str) : bool :=
  any_keyword lower MONEY_KEYWORDS text.
Definition pain_match (lower : str -> str) (text : str) : bool :=
  any_keyword lower PAIN_KEYWORDS text.
Definition urgency_match (lower : str -> str) (text : str) : bool :=
  any_keyword lower DESPERATION_KEYWORDS text.
Definition tech_matches (lower : str -> str) (text : str) : list str :=
  filter (fun t => contains (lower t) text) TECH_KEYWORDS.

(** At least one of the Money, Pain and Urgency categories matches. *)
Definition qualifies (lower : str -> str) (text : str) : bool :=
  money_match lower text || pain_match lower text || urgency_match lower text.

(** The tags in the fixed category order, each present when its flag is
    set. *)
Definition ordered_tags (bm bp bu : bool) (ms : list str) : list str :=
  (if bm then [tag_money] else [])
  ++ (if bp then [tag_pain] else [])
  ++ (if bu then [tag_urgent] else [])
  ++ (match ms with [] => [] | _ :: _ => [tag_tech ms] end).

(** Category weights, with the 50 bonus on top of the 30 of a tech match. *)
Definition weighted_score (bm bp bu : bool) (ms : list str) : Z :=
  ((if bm then 20 else 0) + (if bp then 10 else 0)
   + (if bu then 100 else 0)
   + (match ms with [] => 0 | _ :: _ => 30 + 50 end))%Z.

(** [re.sub('<[^<]+?>', '', s)] *)
Definition strip_tags (html_content : str) : str :=
  Re.subst (fun _ : unit => []) (Re.scan html_tag html_content).

(** Ascending order of the sort key. *)
Definition key_le (T : Type) (key : T -> Z) (a b : T) : Prop :=
  (key a <= key b)%Z.

Definition has_score (v : Z) (l : Lead) : bool :=
  (desperation_score l =? v)%Z.

Definition score_ge (a b : Lead) : Prop :=
  (desperation_score a >= desperation_score b)%Z.

(** The item of the concrete scenario. *)
Definition scenario_item (cat link date : str) : RawItem :=
  mkRawItem cat (u "急招兼职爬虫工程师") link (u "预算5000，Python") date.

(** The warning [validate_grok_report] appends to a link. *)
Definition warning : str := u " **(⚠️ 链接验证失败/404)**".


(** The outcome of the last request [verify_link] makes for [url]: the
    HEAD request, or the GET request when the HEAD response is neither
    200 nor 404. *)
Definition last_response {W E : Type} (http_head http_get : str -> M W E Z)
    (url : str) (w : W) : result E Z :=
  match http_head url w with
  | (Return c, w1) =>
      if (c =? 200)%Z || (c =? 404)%Z then Return c
      else fst (http_get url w1)
  | (Raise e, _) => Raise e
  end.




(** *** Texts with links that do not nest

    A text made of a leading segment and of links, each followed by a
    segment.  An entry holds the title and the URL of a link, the number
    of warnings that follow it, and the segment after them. *)
Definition entry : Type := str * str * nat * str.

Fixpoint warnings (n : nat) : str :=
  match n with
  | O => []
  | S k => warning ++ warnings k
  end.

Fixpoint render (es : list entry) : str :=
  match es with
  | [] => []
  | (t, url, n, seg) :: r => old_link t url ++ warnings n ++ seg ++ render r
  end.

Definition plain (ls : list (str * str * str)) : list entry :=
  map (fun '(t, url, seg) => (t, url, 0, seg)) ls.

Definition skeleton (es : list entry) : list (str * str * str) :=
  map (fun '(t, url, _, seg) => (t, url, seg)) es.

Definition pairs (ls : list (str * str * str)) : list (str * str) :=
  map (fun '(t, url, _) => (t, url)) ls.

(** One more warning after every link [[t](url)]. *)
Definition bump (t url : str) (es : list entry) : list entry :=
  map (fun '(t', url', n, seg) =>
         (t', url', (if eqb t t' && eqb url url' then S n else n), seg)) es.

Definition lacks (c : char) (s : str) : bool :=
  forallb (fun x => negb (char_eqb x c)) s.

Definition nonempty (s : str) : bool :=
  match s with [] => false | _ :: _ => true end.

Definition wf_title (t : str) : bool :=
  nonempty t && lacks (chr "]") t && lacks (chr "[") t.

Definition wf_url (url : str) : bool :=
  match scheme url with
  | Some (_, body) =>
      nonempty body && lacks (chr ")") url && lacks (chr "[") url
  | None => false
  end.

Definition wf_link (l : str * str * str) : bool :=
  let '(t, url, seg) := l in
  wf_title t && wf_url url && lacks (chr "[") seg.

Definition wf_text (seg0 : str) (ls : list (str * str * str)) : bool :=
  lacks (chr "[") seg0 && forallb wf_link ls.



(** The number of warnings of an entry. *)
Definition marks (e : entry) : nat := let '(_, _, n, _) := e in n.

(** The title and the URL of a match are free of the delimiter that
    ends them in the pattern. *)
Definition delimited (p : str * str) : Prop :=
  lacks (chr "]") (fst p) = true /\ lacks (chr ")") (snd p) = true.

(** A network without state where every URL of [dead] answers 404 to
    HEAD and every other URL answers 200. *)
Definition answering (dead : list str) : str -> M unit unit Z :=
  fun url w => (Return (if mem url dead then 404 else 200)%Z, w).

(** On that network GET is never reached; it raises. *)
Definition unreachable : str -> M unit unit Z :=
  fun _ w => (Raise tt, w).


(** [d] occurs in [s]. *)
Definition occurs (d s : str) : Prop := exists pre post, s = pre ++ d ++ post.


(** *** Vocabulary for the feeds, the selection and the requests *)

(** The scores a lead can have. *)
Definition possible_scores : list Z :=
  [10; 20; 30; 90; 100; 110; 120; 130; 180; 190; 200; 210]%Z.

(** The urgency keywords that are also Money or Pain keywords. *)
Definition shared_urgent_keywords : list str :=
  [u "有偿"; u "急"; u "救命"; u "崩溃"].

(** Whether a technology keyword matches. *)
Definition tech_match (lower : str -> str) (text : str) : bool :=
  match tech_matches lower text with [] => false | _ :: _ => true end.

(** The texts of the four children of an item, when none is missing. *)
Definition complete (e : V2EXFeeds.Element)
  : option (str * str * str * str) :=
  match V2EXFeeds.find_title e, V2EXFeeds.find_link e,
        V2EXFeeds.find_description e, V2EXFeeds.find_pubDate e with
  | Some t, Some l, Some d, Some p =>
      let text c := match c with Some s => s | None => [] end in
      Some (text t, text l, text d, text p)
  | _, _, _, _ => None
  end.

(** The items of a feed that reach the analysis: those before the first
    item with a missing child, the ones older than [days] left out. *)
Fixpoint reaching (age_days : str -> option Z) (days : Z) (category : str)
    (items : list V2EXFeeds.Element) : list RawItem :=
  match items with
  | [] => []
  | e :: rest =>
      match complete e with
      | None => []
      | Some (t, l, d, p) =>
          if V2EXFeeds.too_old age_days days p
          then reaching age_days days category rest
          else mkRawItem category t l d p
                 :: reaching age_days days category rest
      end
  end.

Definition survivors (age_days : str -> option Z) (days : Z)
    (get : str -> V2EXFeeds.response) : list RawItem :=
  flat_map (fun category =>
              match get category with
              | V2EXFeeds.Failure => []
              | V2EXFeeds.Items items => reaching age_days days category items
              end) V2EXFeeds.RSS_FEEDS.

(** Requests by their method. *)
Inductive method : Type := HEAD | GET.

Definition is_head (r : method * str) : bool :=
  match fst r with HEAD => true | GET => false end.

(** A request function that also records, in the world, its method and
    the URLs it is called with. *)
Definition tracing {W E : Type} (m : method) (request : str -> M W E Z)
  : str -> M (W * list (method * str)) E Z :=
  fun url wl =>
    let '(r, w') := request url (fst wl) in (r, (w', snd wl ++ [(m, url)])).

(** *** Vocabulary for repeated links *)

(** The links for which the loop of the validator gets the answer
    [false] from [verify_link], in order. *)
Fixpoint failed_probes {W E : Type} (print : str -> M W E unit)
    (str_of_exn : E -> str) (http_head http_get : str -> M W E Z)
    (ms : list (str * str)) : M W E (list (str * str)) :=
  match ms with
  | [] => ret []
  | (t, url) :: rest =>
      if skipped url then failed_probes print str_of_exn http_head http_get rest
      else
        Eff.bind (verify_link print str_of_exn http_head http_get url)
          (fun ok =>
             Eff.bind (failed_probes print str_of_exn http_head http_get rest)
               (fun fs => ret (if ok then fs else (t, url) :: fs)))
  end.

(** How many times the link [[t](url)] is in a list of links. *)
Definition count_pair (t url : str) (fs : list (str * str)) : nat :=
  length (filter (fun p => eqb (fst p) t && eqb (snd p) url) fs).

(** Each entry given as many more warnings as its link has failures. *)
Definition add_marks (fs : list (str * str)) (es : list entry)
  : list entry :=
  map (fun '(t, url, n, seg) => (t, url, n + count_pair t url fs, seg)) es.

Definition tally (fs : list (str * str)) (ls : list (str * str * str))
  : list entry :=
  map (fun '(t, url, seg) => (t, url, count_pair t url fs, seg)) ls.

(** The warnings of each link when the answer of [verify_link] depends
    on the URL alone: none for a skipped or live URL, otherwise as many
    as the link has occurrences in the text. *)
Definition by_occurrences (live : str -> bool)
    (ls : list (str * str * str)) : list entry :=
  map (fun '(t, url, seg) =>
         (t, url,
          (if skipped url || live url then 0
           else count_pair t url (pairs ls)), seg)) ls.

(** *** Vocabulary for the alpha radar and the Grok sensor *)

(** The warning [verify_match] appends to a link. *)
Definition alpha_warning : str := u " **(⚠️ 自动核实: 链接无效/404)**".

(** A text of links that do not nest, each followed by [mark] as many
    times as its entry says. *)
Fixpoint marks_of (mark : str) (n : nat) : str :=
  match n with
  | O => []
  | S k => mark ++ marks_of mark k
  end.

Fixpoint render_with (mark : str) (es : list entry) : str :=
  match es with
  | [] => []
  | (t, url, n, seg) :: r =>
      old_link t url ++ marks_of mark n ++ seg ++ render_with mark r
  end.

(** The links checked one by one, in order, each with its own call of
    [verify_link]: one warning when the answer is [false]. *)
Fixpoint check_each {W E : Type} (print : str -> M W E unit)
    (str_of_exn : E -> str) (http_head http_get : str -> M W E Z)
    (ls : list (str * str * str)) : M W E (list entry) :=
  match ls with
  | [] => ret []
  | (t, url, seg) :: r =>
      Eff.bind (verify_link print str_of_exn http_head http_get url)
        (fun ok =>
           Eff.bind (check_each print str_of_exn http_head http_get r)
             (fun es => ret ((t, url, (if ok then 0 else 1), seg) :: es)))
  end.

(** The two groups of a match object, and its [group(0)]. *)
Definition groups (m : str * str * str) : str * str :=
  let '(_, text, url) := m in (text, url).

Definition group0 (m : str * str * str) : str :=
  let '(g, _, _) := m in g.

(** *** Vocabulary for the standard output *)

(** A standard output that takes every text; what it holds is left out
    of the world. *)
Definition quiet {W E : Type} : str -> M W E unit :=
  fun _ w => (Return tt, w).

(** [print] raises on no text. *)
Definition accepting {W E : Type} (print : str -> M W E unit) : Prop :=
  forall s w, exists w', print s w = (Return tt, w').

(** [e] is an exception that [print] raises, for some text. *)
Definition raised_by {W E : Type} (print : str -> M W E unit) (e : E)
  : Prop :=
  exists s w w', print s w = (Raise e, w').

(** Exceptions for the examples. *)
Inductive exn : Type := ConnectError | UnicodeEncodeError | TypeError.

Definition exn_text (e : exn) : str :=
  match e with
  | ConnectError => u "All connection attempts failed"
  | UnicodeEncodeError => u "surrogates not allowed"
  | TypeError => u "expected string or bytes-like object"
  end.

(** The code points U+D800 to U+DFFF, which UTF-8 cannot encode. *)
Definition surrogate (c : char) : bool :=
  ((55296 <=? c) && (c <=? 57343))%N.

(** A standard output in UTF-8: it takes every text but those that hold
    a surrogate, for which it raises [UnicodeEncodeError]. *)
Definition utf8_console {W : Type} : str -> M W exn unit :=
  fun s w =>
    if existsb surrogate s then (Raise UnicodeEncodeError, w)
    else (Return tt, w).

(** A network on which every request raises. *)
Definition refusing {W : Type} : str -> M W exn Z :=
  fun _ w => (Raise ConnectError, w).

(** A URL that ends with a lone surrogate. *)
Definition surrogate_url : str := u "http://a.example/" ++ [55296%N].

(** [str(e)] for the exceptions of [answering] and [unreachable]. *)
Definition unit_text : unit -> str := fun _ => u "timed out".

(** The text the handler of [verify_link] prints. *)
Definition failure_message {E : Type} (str_of_exn : E -> str) (url : str)
    (e : E) : str :=
  u "  ⚠️ Link Verification Error (" ++ url ++ u "): " ++ str_of_exn e.

(** A network without state, with the exceptions of the examples, where
    every URL of [dead] answers 404 to HEAD and every other URL answers
    200. *)
Definition responding {W : Type} (dead : list str) : str -> M W exn Z :=
  fun url w => (Return (if mem url dead then 404 else 200)%Z, w).

End Props.

(* ================================================================= *)
(** ** Properties of the lead scoring *)

Import PyStr V2EXRadar Props.

Lemma char_eqb_eq (a b : char) : char_eqb a b = true <-> a = b.
Proof. unfold char_eqb. apply N.eqb_eq. Qed.

Lemma char_eqb_refl (a : char) : char_eqb a a = true.
Proof. apply char_eqb_eq. reflexivity. Qed.

Lemma char_eqb_neq (a b : char) : char_eqb a b = false <-> a <> b.
Proof. unfold char_eqb. apply N.eqb_neq. Qed.

Section ScoringProps.
Variable lower : str -> str.

(** What [_analyze_content] returns, by the categories that match. *)
Lemma analyze_by_category (t c : str) :
  let text := lower (t ++ c) in
  _analyze_content lower t c =
    if qualifies lower text
    then (ordered_tags (money_match lower text) (pain_match lower text)
            (urgency_match lower text) (tech_matches lower text),
          weighted_score (money_match lower text) (pain_match lower text)
            (urgency_match lower text) (tech_matches lower text))
    else ([], 0%Z).
Proof.
  intros text. unfold _analyze_content, qualifies, money_match, pain_match,
    urgency_match, tech_matches. fold text.
  destruct (any_keyword lower MONEY_KEYWORDS text);
    destruct (any_keyword lower PAIN_KEYWORDS text);
    destruct (any_keyword lower DESPERATION_KEYWORDS text);
    destruct (filter (fun t0 => contains (lower t0) text) TECH_KEYWORDS);
    reflexivity.
Qed.

Lemma ordered_tags_nonempty (bm bp bu : bool) (ms : list str) :
  bm || bp || bu = true -> ordered_tags bm bp bu ms <> [].
Proof.
  unfold ordered_tags.
  destruct bm, bp, bu; simpl; intros H; try discriminate H; discriminate.
Qed.

Lemma weighted_score_pos (bm bp bu : bool) (ms : list str) :
  bm || bp || bu = true -> (0 < weighted_score bm bp bu ms)%Z.
Proof.
  unfold weighted_score.
  destruct bm, bp, bu, ms; simpl; intros H; try discriminate H; lia.
Qed.

Lemma lead_of_qualifying (it : RawItem) :
  qualifies lower (item_text lower it) = true ->
  exists l, lead_of lower it = [l]
    /\ tags l <> [] /\ (0 < desperation_score l)%Z
    /\ summary l = _clean_summary (item_description it).
Proof.
  intros Hq. unfold lead_of. rewrite analyze_by_category.
  unfold item_text in Hq. rewrite Hq.
  pose proof (@ordered_tags_nonempty _ _ _
                (tech_matches lower (lower (item_title it ++ item_description it)))
                Hq) as Hne.
  pose proof (@weighted_score_pos _ _ _
                (tech_matches lower (lower (item_title it ++ item_description it)))
                Hq) as Hpos.
  destruct (ordered_tags _ _ _ _) as [|tg tgs] eqn:E.
  - now elim Hne.
  - eexists. split; [reflexivity|]. simpl. repeat split; auto; discriminate.
Qed.

Lemma lead_of_unqualifying (it : RawItem) :
  qualifies lower (item_text lower it) = false -> lead_of lower it = [].
Proof.
  intros Hq. unfold lead_of. rewrite analyze_by_category.
  unfold item_text in Hq. rewrite Hq. reflexivity.
Qed.
End ScoringProps.

(** *** The sort *)

Section SortProps.
Variable T : Type.
Variable key : T -> Z.

Lemma insert_perm (x : T) (l : list T) : Permutation (insert key x l) (x :: l).
Proof.
  induction l as [|y r IH]; simpl.
  - apply Permutation_refl.
  - destruct (key x <=? key y)%Z.
    + apply Permutation_refl.
    + eapply perm_trans; [apply perm_skip, IH | apply perm_swap].
Qed.

Lemma sort_perm (l : list T) : Permutation (sort key l) l.
Proof.
  induction l as [|x r IH]; simpl.
  - apply perm_nil.
  - eapply perm_trans; [apply insert_perm | apply perm_skip, IH].
Qed.

Lemma insert_sorted (x : T) (l : list T) :
  StronglySorted (key_le key) l -> StronglySorted (key_le key) (insert key x l).
Proof.
  induction 1 as [|y r Hr IH Hy]; simpl.
  - repeat constructor.
  - destruct (key x <=? key y)%Z eqn:E.
    + apply Z.leb_le in E. constructor.
      * constructor; assumption.
      * constructor; [exact E|].
        eapply Forall_impl; [|exact Hy].
        intros z Hz. unfold key_le in *. lia.
    + apply Z.leb_gt in E. constructor; [exact IH|].
      apply (Permutation_Forall (Permutation_sym (insert_perm x r))).
      constructor; [unfold key_le; lia | exact Hy].
Qed.

Lemma sort_sorted (l : list T) : StronglySorted (key_le key) (sort key l).
Proof.
  induction l as [|x r IH]; simpl.
  - constructor.
  - apply insert_sorted, IH.
Qed.

(** An inserted element only moves past elements of a smaller key. *)
Lemma insert_filter (v : Z) (x : T) (l : list T) :
  filter (fun y => (key y =? v)%Z) (insert key x l)
  = filter (fun y => (key y =? v)%Z) (x :: l).
Proof.
  induction l as [|y r IH]; simpl; [reflexivity|].
  destruct (key x <=? key y)%Z eqn:E; [reflexivity|].
  apply Z.leb_gt in E. simpl. rewrite IH. simpl.
  destruct (key x =? v)%Z eqn:Ex; [|reflexivity].
  apply Z.eqb_eq in Ex.
  destruct (key y =? v)%Z eqn:Ey; [|reflexivity].
  apply Z.eqb_eq in Ey. lia.
Qed.

Lemma sort_filter (v : Z) (l : list T) :
  filter (fun y => (key y =? v)%Z) (sort key l)
  = filter (fun y => (key y =? v)%Z) l.
Proof.
  induction l as [|x r IH]; simpl; [reflexivity|].
  rewrite insert_filter. simpl. now rewrite IH.
Qed.

Lemma StronglySorted_app (R : T -> T -> Prop) (l1 l2 : list T) :
  StronglySorted R l1 -> StronglySorted R l2 ->
  (forall a b, In a l1 -> In b l2 -> R a b) ->
  StronglySorted R (l1 ++ l2).
Proof.
  induction 1 as [|a l Hl IH Ha]; intros H2 Hx; simpl; [exact H2|].
  constructor.
  - apply IH; [exact H2|]. intros; apply Hx; simpl; auto.
  - apply Forall_app. split; [exact Ha|].
    apply Forall_forall. intros b Hb. apply Hx; simpl; auto.
Qed.

Lemma StronglySorted_rev (R : T -> T -> Prop) (l : list T) :
  StronglySorted R l -> StronglySorted (fun a b => R b a) (rev l).
Proof.
  induction 1 as [|a l Hl IH Ha]; simpl; [constructor|].
  apply StronglySorted_app; [exact IH | repeat constructor |].
  intros x y Hx [<-|[]]. apply in_rev in Hx.
  rewrite Forall_forall in Ha. now apply Ha.
Qed.

Lemma sort_reverse_perm (l : list T) : Permutation (sort_reverse key l) l.
Proof.
  unfold sort_reverse.
  eapply perm_trans; [apply Permutation_sym, Permutation_rev|].
  eapply perm_trans; [apply sort_perm|].
  apply Permutation_sym, Permutation_rev.
Qed.

Lemma sort_reverse_sorted (l : list T) :
  StronglySorted (fun a b => (key a >= key b)%Z) (sort_reverse key l).
Proof.
  unfold sort_reverse.
  pose proof (StronglySorted_rev (sort_sorted (rev l))) as H.
  revert H. generalize (rev (sort key (rev l))). intros l'.
  induction 1 as [|a r Hr IH Ha]; constructor; [exact IH|].
  eapply Forall_impl; [|exact Ha]. unfold key_le. intros; lia.
Qed.

Lemma sort_reverse_stable (v : Z) (l : list T) :
  filter (fun y => (key y =? v)%Z) (sort_reverse key l)
  = filter (fun y => (key y =? v)%Z) l.
Proof.
  unfold sort_reverse.
  now rewrite filter_rev, sort_filter, filter_rev, rev_involutive.
Qed.
End SortProps.

Lemma fetch_leads_perm (lower : str -> str) (items : list RawItem) :
  Permutation (fetch_leads lower items) (flat_map (lead_of lower) items).
Proof. unfold fetch_leads. apply sort_reverse_perm. Qed.

Lemma summary_bound (html : str) : length (_clean_summary html) <= 203.
Proof.
  unfold _clean_summary.
  destruct (200 <? length _) eqn:E.
  - rewrite length_app.
    pose proof (firstn_le_length 200
                  (Re.subst (fun _ : unit => []) (Re.scan html_tag html))).
    change (length (u "...")) with 3. lia.
  - apply Nat.ltb_ge in E. lia.
Qed.

(** *** Main theorems on the scoring engine *)

(** C1.  An item yields a lead exactly when one of the Money, Pain and
    Urgency categories matches the lower-cased title+description; the
    leads returned are as many as the items that qualify; and an item
    that does not qualify, whatever technology keywords it mentions, is
    analysed to no tags and score 0. *)
Theorem C1_lead_iff_money_pain_urgency (lower : str -> str) :
  (forall it : RawItem,
      ((exists l, lead_of lower it = [l])
       <-> qualifies lower (item_text lower it) = true)
      /\ (lead_of lower it = []
          <-> qualifies lower (item_text lower it) = false)
      /\ (qualifies lower (item_text lower it) = false ->
          _analyze_content lower (item_title it) (item_description it)
          = ([], 0%Z)))
  /\ (forall items : list RawItem,
        length (fetch_leads lower items)
        = length (filter (fun it => qualifies lower (item_text lower it))
                         items)).
Proof.
  assert (per_item : forall it,
             qualifies lower (item_text lower it) = true ->
             exists l, lead_of lower it = [l]).
  { intros it Hq. destruct (lead_of_qualifying lower it Hq) as (l & Hl & _).
    now exists l. }
  split.
  - intros it. repeat split.
    + intros [l Hl].
      destruct (qualifies lower (item_text lower it)) eqn:Hq; [reflexivity|].
      rewrite (lead_of_unqualifying lower it Hq) in Hl. discriminate.
    + apply per_item.
    + intros Hnil.
      destruct (qualifies lower (item_text lower it)) eqn:Hq; [|reflexivity].
      destruct (per_item it Hq) as [l Hl]. rewrite Hl in Hnil. discriminate.
    + apply lead_of_unqualifying.
    + intros Hq. rewrite analyze_by_category.
      unfold item_text in Hq. now rewrite Hq.
  - intros items.
    rewrite (Permutation_length (fetch_leads_perm lower items)).
    induction items as [|it r IH]; simpl; [reflexivity|].
    rewrite length_app, IH.
    destruct (qualifies lower (item_text lower it)) eqn:Hq.
    + destruct (per_item it Hq) as [l ->]. reflexivity.
    + now rewrite (lead_of_unqualifying lower it Hq).
Qed.

(** An item that mentions Python and scripts, and nothing of the three
    qualifying categories, yields no lead. *)
Example tech_only_item_no_lead :
  tech_matches ascii_lower (ascii_lower (u "Python 脚本 tips"))
  = [u "Python"; u "脚本"]
  /\ fetch_leads ascii_lower
       [mkRawItem (u "global") (u "Python 脚本") (u "https://x.example/2")
                  (u " tips") (u "")] = [].
Proof. split; vm_compute; reflexivity. Qed.

(** C3 (as stated, refuted).  On the scenario item the tags returned are
    not the sequence "Money", "Urgent", "Tech:Python,爬虫". *)
Lemma C3_scenario_tags_differ :
  map tags
      (fetch_leads ascii_lower
         [scenario_item (u "jobs") (u "https://x.example/1") (u "")])
  <> [[u "Money"; u "Urgent"; u "Tech:Python,爬虫"]].
Proof. vm_compute. discriminate. Qed.

(** C3 (amended).  The scenario item yields exactly one lead, of score
    200 = 20 (Money) + 100 (Urgency) + 30 (tech match) + 50 (bonus), Pain
    not matching, whose tags are "💰Money", "🔥Urgent", "🛠️Python,爬虫";
    and for every item the tags come in the fixed order Money, Pain,
    Urgency, tech match. *)
Theorem C3_scenario_lead (cat link date : str) :
  let it := scenario_item cat link date in
  fetch_leads ascii_lower [it]
  = [ mkLead (u "V2EX-" ++ cat) (u "急招兼职爬虫工程师") link
        (u "预算5000，Python") date
        [u "💰Money"; u "🔥Urgent"; u "🛠️Python,爬虫"] 200 ]
  /\ money_match ascii_lower (item_text ascii_lower it) = true
  /\ pain_match ascii_lower (item_text ascii_lower it) = false
  /\ urgency_match ascii_lower (item_text ascii_lower it) = true
  /\ tech_matches ascii_lower (item_text ascii_lower it)
     = [u "Python"; u "爬虫"]
  /\ (200 = 20 + 100 + 30 + 50)%Z
  /\ forall (lower : str -> str) (t c : str),
      exists bm bp bu ms,
        fst (_analyze_content lower t c) = ordered_tags bm bp bu ms.
Proof.
  intros it. subst it.
  split; [vm_compute; reflexivity|].
  split; [vm_compute; reflexivity|].
  split; [vm_compute; reflexivity|].
  split; [vm_compute; reflexivity|].
  split; [vm_compute; reflexivity|].
  split; [reflexivity|].
  intros lower t c. rewrite analyze_by_category.
  destruct (qualifies lower (lower (t ++ c))).
  - do 4 eexists. reflexivity.
  - exists false, false, false, []. reflexivity.
Qed.

(** C4.  The leads returned are in descending order of score, they are
    the leads of the items, and the leads of any one score keep the order
    in which their items came. *)
Theorem C4_sorted_descending_stable (lower : str -> str)
    (items : list RawItem) :
  StronglySorted score_ge (fetch_leads lower items)
  /\ Permutation (fetch_leads lower items) (flat_map (lead_of lower) items)
  /\ forall v : Z,
      filter (has_score v) (fetch_leads lower items)
      = filter (has_score v) (flat_map (lead_of lower) items).
Proof.
  split; [|split].
  - apply sort_reverse_sorted.
  - apply fetch_leads_perm.
  - intros v. apply sort_reverse_stable.
Qed.

(** C7.  Every lead returned has a score above 0 and at least one tag,
    and an item analysed to score 0 yields no lead. *)
Theorem C7_leads_positive_tagged (lower : str -> str) :
  (forall items : list RawItem,
      Forall (fun l => (0 < desperation_score l)%Z /\ tags l <> [])
             (fetch_leads lower items))
  /\ (forall it : RawItem,
        snd (_analyze_content lower (item_title it) (item_description it))
        = 0%Z ->
        lead_of lower it = []).
Proof.
  split.
  - intros items.
    apply (Permutation_Forall (Permutation_sym (fetch_leads_perm lower items))).
    apply Forall_forall. intros l Hl.
    apply in_flat_map in Hl. destruct Hl as (it & _ & Hl).
    destruct (qualifies lower (item_text lower it)) eqn:Hq.
    + destruct (lead_of_qualifying lower it Hq) as (l' & E & Ht & Hs & _).
      rewrite E in Hl. destruct Hl as [<-|[]]. split; assumption.
    + rewrite (lead_of_unqualifying lower it Hq) in Hl. destruct Hl.
  - intros it Hz.
    destruct (qualifies lower (item_text lower it)) eqn:Hq.
    + exfalso. rewrite analyze_by_category in Hz.
      unfold item_text in Hq. rewrite Hq in Hz. simpl in Hz.
      pose proof (@weighted_score_pos _ _ _
                    (tech_matches lower
                       (lower (item_title it ++ item_description it))) Hq).
      lia.
    + now apply lead_of_unqualifying.
Qed.

(** C9 (as stated, refuted).  A description of 201 plain characters gives
    a lead whose summary has 203 characters. *)
Lemma C9_summary_longer_than_200 :
  ~ Forall (fun l => length (summary l) <= 200)
      (fetch_leads ascii_lower
         [mkRawItem (u "jobs") (u "急") (u "https://x.example/1")
                    (repeat (chr "a") 201) (u "")]).
Proof.
  assert (E : map (fun l => length (summary l))
                (fetch_leads ascii_lower
                   [mkRawItem (u "jobs") (u "急") (u "https://x.example/1")
                      (repeat (chr "a") 201) (u "")])
              = [203]) by (vm_compute; reflexivity).
  intros H. apply (Forall_map (fun l => length (summary l))
                     (fun n => n <= 200)) in H.
  rewrite E in H. apply Forall_inv in H. lia.
Qed.

(** C9 (amended).  The summary of a lead is its item's description with
    the HTML tags removed; when that text has more than 200 characters
    the summary is its first 200 characters followed by "...", 203
    characters in all, and otherwise the text itself. *)
Theorem C9_summary_stripped_truncated (lower : str -> str) (it : RawItem) :
  let clean := strip_tags (item_description it) in
  Forall (fun l =>
            summary l
            = (if 200 <? length clean
               then firstn 200 clean ++ u "..." else clean)
            /\ length (summary l) <= 203
            /\ (200 < length clean -> length (summary l) = 203)
            /\ (length clean <= 200 -> summary l = clean))
         (lead_of lower it).
Proof.
  intros clean.
  destruct (qualifies lower (item_text lower it)) eqn:Hq.
  - destruct (lead_of_qualifying lower it Hq) as (l & E & _ & _ & Hs).
    rewrite E. constructor; [|constructor].
    rewrite Hs. unfold _clean_summary. fold (strip_tags (item_description it)).
    fold clean. split; [reflexivity|]. split; [|split].
    + apply summary_bound.
    + intros Hlen. apply Nat.ltb_lt in Hlen as Hb. rewrite Hb.
      rewrite length_app, length_firstn. change (length (u "...")) with 3. lia.
    + intros Hlen. apply Nat.ltb_ge in Hlen. now rewrite Hlen.
  - rewrite (lead_of_unqualifying lower it Hq). constructor.
Qed.

(* ================================================================= *)
(** ** Properties of the link verifier and of the validator *)

Import Eff Collector.

Section VerifierProps.
Variables World Exn : Type.
Variable str_of_exn : Exn -> str.
Variables http_head http_get : str -> M World Exn Z.

(** [verify_link] by cases on what the requests do. *)
Lemma verify_link_cases (url : str) (w : World) :
  verify_link quiet str_of_exn http_head http_get url w =
    match http_head url w with
    | (Raise _, w1) => (Return false, w1)
    | (Return c, w1) =>
        if (c =? 200)%Z then (Return true, w1)
        else if (c =? 404)%Z then (Return false, w1)
        else match http_get url w1 with
             | (Raise _, w2) => (Return false, w2)
             | (Return c2, w2) => (Return (c2 =? 200)%Z, w2)
             end
    end.
Proof.
  unfold verify_link, try_except, bind, ret.
  destruct (http_head url w) as [[c|e] w1]; [|reflexivity].
  destruct (c =? 200)%Z; [reflexivity|].
  destruct (c =? 404)%Z; [reflexivity|].
  destruct (http_get url w1) as [[c2|e2] w2]; reflexivity.
Qed.

Lemma verify_link_returns (url : str) (w : World) :
  exists b w', verify_link quiet str_of_exn http_head http_get url w =
    (Return b, w').
Proof.
  rewrite verify_link_cases.
  destruct (http_head url w) as [[c|e] w1]; [|eauto].
  destruct (c =? 200)%Z; [eauto|].
  destruct (c =? 404)%Z; [eauto|].
  destruct (http_get url w1) as [[c2|e2] w2]; eauto.
Qed.

End VerifierProps.


(** C6 (the code at a failing input).  For a URL that ends with a lone
    surrogate and a request that fails, the handler of [verify_link]
    prints a message that holds the URL; a standard output in UTF-8
    cannot encode it, and the [UnicodeEncodeError] of [print] leaves
    [verify_link].  On a standard output that takes every text the same
    call returns [false]. *)
Theorem C6_verify_link_raises_in_handler :
  verify_link utf8_console exn_text refusing refusing surrogate_url tt
  = (Raise UnicodeEncodeError, tt)
  /\ verify_link quiet exn_text refusing refusing surrogate_url tt
     = (Return false, tt).
Proof. split; vm_compute; reflexivity. Qed.

(** *** Strings and scanning *)

Lemma eqb_eq (a b : str) : eqb a b = true <-> a = b.
Proof.
  revert b. induction a as [|x a IH]; intros [|y b]; simpl;
    try (split; [discriminate | discriminate]); [tauto|].
  rewrite andb_true_iff, char_eqb_eq, IH.
  split; [intros [-> ->]; reflexivity | intros H; injection H; auto].
Qed.

Lemma startswith_iff (p s : str) :
  startswith p s = true <-> exists r, s = p ++ r.
Proof.
  revert s. induction p as [|x p IH]; intros s; simpl.
  - split; [intros _; now exists s | reflexivity].
  - destruct s as [|y s].
    + split; [discriminate | intros [r H]; discriminate H].
    + rewrite andb_true_iff, char_eqb_eq, IH. split.
      * intros [-> [r ->]]. now exists r.
      * intros [r H]. injection H as -> ->. split; [reflexivity | now exists r].
Qed.

Lemma startswith_app (p r : str) : startswith p (p ++ r) = true.
Proof. apply startswith_iff. now exists r. Qed.

Lemma contains_iff (k s : str) :
  contains k s = true <-> exists pre post, s = pre ++ k ++ post.
Proof.
  induction s as [|c s IH].
  - simpl. rewrite orb_false_r, startswith_iff. split.
    + intros [r H]. now exists [], r.
    + intros (pre & post & H). destruct pre; [now exists post|discriminate H].
  - cbn [contains]. rewrite orb_true_iff, startswith_iff, IH. split.
    + intros [[r H] | (pre & post & H)].
      * exists [], r. exact H.
      * exists (c :: pre), post. simpl. now rewrite H.
    + intros (pre & post & H). destruct pre as [|x pre]; simpl in H.
      * left. now exists post.
      * right. injection H as _ H. now exists pre, post.
Qed.


Lemma lacks_app (c : char) (a b : str) :
  lacks c (a ++ b) = lacks c a && lacks c b.
Proof. unfold lacks. apply forallb_app. Qed.

Section ScanProps.
Variable A : Type.
Variable m : str -> option (A * nat).

Lemma scan_from_skip (a r : str) :
  Re.scan_from m (length a) (a ++ r) = Re.scan_from m 0 r.
Proof. induction a as [|c a IH]; simpl; [reflexivity | exact IH]. Qed.

Lemma subst_app (repl : A -> str) (p q : list (Re.piece A)) :
  Re.subst repl (p ++ q) = Re.subst repl p ++ Re.subst repl q.
Proof.
  induction p as [|[c|a] p IH]; simpl; [reflexivity| |];
    rewrite IH; [reflexivity | now rewrite app_assoc].
Qed.

Lemma hits_app (p q : list (Re.piece A)) :
  Re.hits (p ++ q) = Re.hits p ++ Re.hits q.
Proof.
  induction p as [|[c|a] p IH]; simpl; [reflexivity| |]; now rewrite IH.
Qed.

Lemma subst_lits (repl : A -> str) (a : str) :
  Re.subst repl (map Re.Lit a) = a.
Proof. induction a as [|c a IH]; simpl; [reflexivity | now rewrite IH]. Qed.

Lemma hits_lits (a : str) : Re.hits (map (@Re.Lit A) a) = [].
Proof. induction a as [|c a IH]; simpl; [reflexivity | exact IH]. Qed.

(** A pattern that can only match at a ['[']. *)
Hypothesis bracket_led :
  forall c s, c <> chr "[" -> m (c :: s) = None.

Lemma scan_lits (a r : str) :
  lacks (chr "[") a = true ->
  Re.scan m (a ++ r) = map Re.Lit a ++ Re.scan m r.
Proof.
  unfold Re.scan. induction a as [|c a IH]; simpl; [reflexivity|].
  rewrite andb_true_iff, negb_true_iff, char_eqb_neq. intros [Hc Ha].
  rewrite (bracket_led _ Hc). now rewrite IH.
Qed.

(** A match at the head of the text. *)
Lemma scan_hit (c : char) (a r : str) (v : A) :
  m (c :: a ++ r) = Some (v, length a) ->
  Re.scan m (c :: a ++ r) = Re.Hit v :: Re.scan m r.
Proof.
  unfold Re.scan. intros H. cbn [Re.scan_from]. rewrite H.
  now rewrite scan_from_skip.
Qed.

(** No match at a ['['] that is followed by text without ['[']. *)
Lemma scan_miss (c : char) (a r : str) :
  m (c :: a ++ r) = None -> lacks (chr "[") a = true ->
  Re.scan m (c :: a ++ r) = Re.Lit c :: map Re.Lit a ++ Re.scan m r.
Proof.
  intros H Ha. unfold Re.scan. cbn [Re.scan_from]. rewrite H.
  f_equal. now apply scan_lits.
Qed.
End ScanProps.

(** *** Links in a text *)

Lemma old_link_cons (t url : str) :
  old_link t url = chr "[" :: t ++ chr "]" :: chr "(" :: url ++ [chr ")"].
Proof. reflexivity. Qed.

Lemma new_link_old (t url : str) : new_link t url = old_link t url ++ warning.
Proof.
  assert (E : u ") **(⚠️ 链接验证失败/404)**" = u ")" ++ warning)
    by (vm_compute; reflexivity).
  unfold new_link, old_link. rewrite E, !app_assoc. reflexivity.
Qed.

Lemma lacks_warnings (n : nat) : lacks (chr "[") (warnings n) = true.
Proof.
  assert (E : lacks (chr "[") warning = true) by (vm_compute; reflexivity).
  induction n as [|n IH]; cbn [warnings]; [reflexivity|].
  now rewrite lacks_app, IH, E.
Qed.

(** Two texts that stop at the same delimiter and agree up to it. *)
Lemma prefix_delim (c : char) (t t' x y : str) :
  lacks c t = true -> lacks c t' = true ->
  startswith (t ++ c :: x) (t' ++ c :: y) = true ->
  t = t' /\ startswith x y = true.
Proof.
  revert t'. induction t as [|d t IH]; intros [|d' t']; simpl;
    rewrite ?andb_true_iff, ?negb_true_iff, ?char_eqb_neq, ?char_eqb_eq.
  - intros _ _ [_ H]. now split.
  - intros _ [Hd _] [E _]. now elim Hd.
  - intros [Hd _] _ [E _]. now elim Hd.
  - intros [_ Ht] [_ Ht'] [-> H].
    destruct (IH t' Ht Ht' H) as [-> Hxy]. now split.
Qed.

Lemma startswith_old_link (t url t' url' r : str) :
  lacks (chr "]") t = true -> lacks (chr "]") t' = true ->
  lacks (chr ")") url = true -> lacks (chr ")") url' = true ->
  startswith (old_link t url) (old_link t' url' ++ r) = true ->
  t = t' /\ url = url'.
Proof.
  intros Ht Ht' Hu Hu'. rewrite !old_link_cons.
  rewrite <- !app_comm_cons, <- app_assoc, <- !app_comm_cons, <- app_assoc.
  cbn [startswith app]. rewrite char_eqb_refl. cbn [andb].
  intros H. apply prefix_delim in H; [|assumption|assumption].
  destruct H as [-> H]. cbn [startswith] in H.
  rewrite char_eqb_refl in H. cbn [andb] in H.
  apply prefix_delim in H; [|assumption|assumption].
  now destruct H as [-> _].
Qed.

Lemma span_until_delim (c : char) (t x : str) :
  lacks c t = true -> Re.span_until c (t ++ c :: x) = Some (t, x).
Proof.
  induction t as [|d t IH]; simpl.
  - intros _. now rewrite char_eqb_refl.
  - rewrite andb_true_iff, negb_true_iff. intros [-> Ht].
    now rewrite (IH Ht).
Qed.

Lemma scheme_app (s sch body : str) :
  scheme s = Some (sch, body) ->
  s = sch ++ body /\ forall x, scheme (s ++ x) = Some (sch, body ++ x).
Proof.
  assert (Eh : u "http" = [104; 116; 116; 112]%N) by (vm_compute; reflexivity).
  assert (Es : u "://" = [58; 47; 47]%N) by (vm_compute; reflexivity).
  unfold scheme. rewrite Eh, Es.
  destruct (startswith [104; 116; 116; 112]%N s) eqn:E; [|discriminate].
  apply startswith_iff in E. destruct E as [r0 ->].
  assert (pre : forall x,
             startswith [104; 116; 116; 112]%N
               (([104; 116; 116; 112]%N ++ r0) ++ x) = true).
  { intros x. rewrite <- app_assoc. apply startswith_app. }
  cbn [skipn app].
  assert (tail3 : forall b x : str,
             startswith [58; 47; 47]%N (([58; 47; 47]%N ++ b) ++ x) = true).
  { intros b x. rewrite <- app_assoc. apply startswith_app. }
  destruct r0 as [|c r'].
  - cbn. discriminate.
  - destruct (char_eqb c (chr "s")) eqn:Ec.
    + destruct (startswith [58; 47; 47]%N r') eqn:E3; [|discriminate].
      apply startswith_iff in E3. destruct E3 as [b ->].
      intros H. injection H as <- <-. split; [reflexivity|].
      intros x. cbn [app]. rewrite Ec.
      change ([58; 47; 47]%N ++ b) with (58 :: 47 :: 47 :: b)%N.
      cbn [startswith skipn app]. rewrite !char_eqb_refl. reflexivity.
    + destruct (startswith [58; 47; 47]%N (c :: r')) eqn:E3; [|discriminate].
      apply startswith_iff in E3. destruct E3 as [b E3].
      cbn [app] in E3. injection E3 as -> ->.
      intros H. cbn [skipn] in H. injection H as <- <-.
      split; [reflexivity|].
      intros x. cbn [app]. rewrite Ec.
      cbn [startswith skipn app]. rewrite !char_eqb_refl. reflexivity.
Qed.

Lemma link_pattern_bracket_led (c : char) (s : str) :
  c <> chr "[" -> link_pattern (c :: s) = None.
Proof.
  intros Hc. apply char_eqb_neq in Hc. unfold link_pattern. now rewrite Hc.
Qed.

Lemma wf_title_parts (t : str) :
  wf_title t = true ->
  t <> [] /\ lacks (chr "]") t = true /\ lacks (chr "[") t = true.
Proof.
  unfold wf_title. rewrite !andb_true_iff. intros [[Hn ?] ?].
  repeat split; auto. intros ->. discriminate Hn.
Qed.

Lemma wf_url_parts (url : str) :
  wf_url url = true ->
  lacks (chr ")") url = true /\ lacks (chr "[") url = true
  /\ exists sch body, scheme url = Some (sch, body) /\ body <> [].
Proof.
  unfold wf_url. destruct (scheme url) as [[sch body]|]; [|discriminate].
  rewrite !andb_true_iff. intros [[Hn ?] ?]. repeat split; auto.
  exists sch, body. split; [reflexivity|]. intros ->. discriminate Hn.
Qed.

(** The pattern matches at a well-formed link and yields its parts. *)
Lemma link_pattern_link (t url r : str) :
  wf_title t = true -> wf_url url = true ->
  link_pattern (old_link t url ++ r)
  = Some ((t, url), length (t ++ chr "]" :: chr "(" :: url ++ [chr ")"])).
Proof.
  intros Ht Hu.
  destruct (wf_title_parts _ Ht) as (Hne & Hb & _).
  destruct (wf_url_parts _ Hu) as (Hp & _ & sch & body & Hs & Hbody).
  destruct (scheme_app _ Hs) as [Eu Happ].
  assert (Hpb : lacks (chr ")") body = true).
  { rewrite Eu, lacks_app, andb_true_iff in Hp. tauto. }
  rewrite old_link_cons.
  rewrite <- app_comm_cons, <- app_assoc, <- !app_comm_cons, <- app_assoc.
  cbn [app]. unfold link_pattern. rewrite char_eqb_refl.
  rewrite span_until_delim by exact Hb.
  destruct t as [|t0 t1]; [now elim Hne|].
  rewrite char_eqb_refl, Happ.
  rewrite span_until_delim by exact Hpb.
  destruct body as [|b0 b1]; [now elim Hbody|].
  rewrite <- Eu. do 2 f_equal.
  rewrite !length_app. cbn [length]. rewrite length_app. cbn [length].
  rewrite Eu, length_app. cbn [length]. lia.
Qed.

Lemma wf_link_parts (t url seg : str) :
  wf_link (t, url, seg) = true ->
  wf_title t = true /\ wf_url url = true /\ lacks (chr "[") seg = true.
Proof. unfold wf_link. rewrite !andb_true_iff. tauto. Qed.

Lemma lacks_link_tail (t url : str) :
  lacks (chr "[") t = true -> lacks (chr "[") url = true ->
  lacks (chr "[") (t ++ chr "]" :: chr "(" :: url ++ [chr ")"]) = true.
Proof.
  intros Ht Hu. rewrite lacks_app, Ht. cbn [lacks forallb andb].
  change (forallb (fun x => negb (char_eqb x (chr "[")))
            (url ++ [chr ")"])) with (lacks (chr "[") (url ++ [chr ")"])).
  rewrite lacks_app, Hu. reflexivity.
Qed.

(** [re.findall] on a text whose links do not nest returns its links. *)
Lemma findall_render (seg0 : str) (ls : list (str * str * str)) :
  wf_text seg0 ls = true ->
  findall_links (seg0 ++ render (plain ls)) = pairs ls.
Proof.
  unfold wf_text, findall_links. rewrite andb_true_iff. intros [H0 Hls].
  rewrite (@scan_lits _ _ link_pattern_bracket_led _ _ H0), hits_app, hits_lits.
  cbn [app]. clear H0 seg0.
  induction ls as [|[[t url] seg] ls IH]; [reflexivity|].
  cbn [forallb] in Hls. rewrite andb_true_iff in Hls. destruct Hls as [Hl Hls].
  destruct (@wf_link_parts _ _ _ Hl) as (Ht & Hu & Hseg).
  change (plain ((t, url, seg) :: ls)) with ((t, url, 0, seg) :: plain ls).
  change (pairs ((t, url, seg) :: ls)) with ((t, url) :: pairs ls).
  cbn [render warnings app].
  pose proof (@link_pattern_link t url (seg ++ render (plain ls)) Ht Hu) as Hm.
  rewrite old_link_cons in Hm |- *. rewrite <- app_comm_cons in Hm |- *.
  rewrite (@scan_hit _ _ _ _ _ _ Hm).
  rewrite (@scan_lits _ _ link_pattern_bracket_led _ _ Hseg).
  cbn [Re.hits]. rewrite hits_app, hits_lits.
  cbn [app]. f_equal. apply IH, Hls.
Qed.

(** [replace] with a link as the text to find, as a scan. *)
Lemma replace_old_link (t url new s : str) :
  replace (old_link t url) new s
  = Re.subst (fun _ : unit => new)
      (Re.scan (fun x => if startswith (old_link t url) x
                         then Some (tt, length (t ++ chr "]" :: chr "("
                                                  :: url ++ [chr ")"]))
                         else None) s).
Proof. reflexivity. Qed.

Lemma eqb_refl (a : str) : eqb a a = true.
Proof. now apply eqb_eq. Qed.

(** Replacing a link by the link and a warning, in a text whose links
    do not nest, adds one warning after each occurrence of that link. *)
Lemma replace_render (t url seg0 : str) (es : list entry) :
  lacks (chr "]") t = true -> lacks (chr ")") url = true ->
  lacks (chr "[") seg0 = true ->
  forallb wf_link (skeleton es) = true ->
  replace (old_link t url) (new_link t url) (seg0 ++ render es)
  = seg0 ++ render (bump t url es).
Proof.
  intros Ht Hu H0 Hes. rewrite replace_old_link.
  set (m := fun x : str => if startswith (old_link t url) x then _ else None).
  assert (led : forall c s, c <> chr "[" -> m (c :: s) = None).
  { intros c s Hc. unfold m. rewrite old_link_cons. cbn [startswith].
    apply not_eq_sym in Hc. apply char_eqb_neq in Hc. now rewrite Hc. }
  rewrite (@scan_lits _ _ led _ _ H0), subst_app, subst_lits. f_equal.
  clear H0 seg0.
  induction es as [|[[[t' url'] n] seg] es IH]; [reflexivity|].
  change (skeleton ((t', url', n, seg) :: es))
    with ((t', url', seg) :: skeleton es) in Hes.
  cbn [forallb] in Hes. rewrite andb_true_iff in Hes.
  destruct Hes as [Hl Hes]. specialize (IH Hes).
  destruct (@wf_link_parts _ _ _ Hl) as (Ht' & Hu' & Hseg).
  destruct (@wf_title_parts _ Ht') as (_ & Hb' & Hk').
  destruct (@wf_url_parts _ Hu') as (Hp' & Hku' & _).
  assert (Hws : lacks (chr "[") (warnings n ++ seg) = true)
    by now rewrite lacks_app, lacks_warnings, Hseg.
  change (bump t url ((t', url', n, seg) :: es))
    with ((t', url', (if eqb t t' && eqb url url' then S n else n), seg)
            :: bump t url es).
  cbn [render].
  replace (warnings n ++ seg ++ render es)
    with ((warnings n ++ seg) ++ render es) by now rewrite app_assoc.
  destruct (startswith (old_link t url)
              (old_link t' url' ++ (warnings n ++ seg) ++ render es)) eqn:E.
  - destruct (@startswith_old_link _ _ _ _ _ Ht Hb' Hu Hp' E) as [<- <-].
    rewrite !eqb_refl. cbn [andb].
    assert (Hm : m (chr "[" :: (t ++ chr "]" :: chr "(" :: url ++ [chr ")"])
                      ++ (warnings n ++ seg) ++ render es)
                 = Some (tt, length (t ++ chr "]" :: chr "("
                                       :: url ++ [chr ")"]))).
    { unfold m. rewrite app_comm_cons, <- old_link_cons. now rewrite E. }
    change (Re.scan m (old_link t url ++ (warnings n ++ seg) ++ render es))
      with (Re.scan m (chr "[" :: (t ++ chr "]" :: chr "(" :: url ++ [chr ")"])
                         ++ (warnings n ++ seg) ++ render es)).
    rewrite (@scan_hit _ _ _ _ _ _ Hm). cbn [Re.subst].
    rewrite (@scan_lits _ _ led _ _ Hws), subst_app, subst_lits, IH.
    rewrite new_link_old. cbn [warnings].
    now rewrite <- !app_assoc.
  - assert (Hneq : eqb t t' && eqb url url' = false).
    { destruct (eqb t t' && eqb url url') eqn:Eq; [|reflexivity].
      rewrite andb_true_iff, !eqb_eq in Eq. destruct Eq as [<- <-].
      now rewrite startswith_app in E. }
    rewrite Hneq.
    assert (Hm : m (chr "[" :: (t' ++ chr "]" :: chr "(" :: url' ++ [chr ")"])
                      ++ (warnings n ++ seg) ++ render es) = None).
    { unfold m. rewrite app_comm_cons, <- old_link_cons. now rewrite E. }
    change (Re.scan m (old_link t' url' ++ (warnings n ++ seg) ++ render es))
      with (Re.scan m (chr "[" :: (t' ++ chr "]" :: chr "(" :: url' ++ [chr ")"])
                         ++ (warnings n ++ seg) ++ render es)).
    rewrite (@scan_miss _ _ led _ _ _ Hm (@lacks_link_tail _ _ Hk' Hku')).
    cbn [Re.subst]. rewrite subst_app, subst_lits.
    rewrite (@scan_lits _ _ led _ _ Hws), subst_app, subst_lits, IH.
    rewrite old_link_cons. cbn [app]. now rewrite <- !app_assoc.
Qed.

(** *** The validation loop *)


Lemma skeleton_plain (ls : list (str * str * str)) : skeleton (plain ls) = ls.
Proof.
  induction ls as [|[[t url] seg] ls IH]; [reflexivity|].
  change (skeleton (plain ((t, url, seg) :: ls)))
    with ((t, url, seg) :: skeleton (plain ls)).
  now rewrite IH.
Qed.

Lemma skeleton_bump (t url : str) (es : list entry) :
  skeleton (bump t url es) = skeleton es.
Proof.
  induction es as [|[[[t' url'] n] seg] es IH]; [reflexivity|].
  change (skeleton (bump t url ((t', url', n, seg) :: es)))
    with ((t', url', seg) :: skeleton (bump t url es)).
  now rewrite IH.
Qed.




Lemma wf_links_delimited (ls : list (str * str * str)) :
  forallb wf_link ls = true -> Forall delimited (pairs ls).
Proof.
  induction ls as [|[[t url] seg] ls IH]; [constructor|].
  cbn [forallb]. rewrite andb_true_iff. intros [Hl Hls].
  change (pairs ((t, url, seg) :: ls)) with ((t, url) :: pairs ls).
  constructor; [|now apply IH].
  destruct (@wf_link_parts _ _ _ Hl) as (Ht & Hu & _).
  destruct (@wf_title_parts _ Ht) as (_ & Hb & _).
  destruct (@wf_url_parts _ Hu) as (Hp & _). now split.
Qed.

Section LoopProps.
Variables World Exn : Type.
Variable str_of_exn : Exn -> str.
Variables http_head http_get : str -> M World Exn Z.



(** One turn of the loop on a skipped URL changes nothing. *)
Lemma loop_skipped (t url : str) (rest : list (str * str)) (content : str) :
skipped url = true ->
validate_loop quiet str_of_exn http_head http_get ((t, url) :: rest) content
= validate_loop quiet str_of_exn http_head http_get rest content.
Proof. intros H. cbn [validate_loop]. now rewrite H. Qed.

(** One turn of the loop on a URL that is not skipped. *)
Lemma loop_checked (t url : str) (rest : list (str * str)) (content : str)
  (w : World) :
skipped url = false ->
exists ok w1,
  verify_link quiet str_of_exn http_head http_get url w = (Return ok, w1)
  /\ validate_loop quiet str_of_exn http_head http_get ((t, url) :: rest)
      content w
     = validate_loop quiet str_of_exn http_head http_get rest
         (if ok then content
          else replace (old_link t url) (new_link t url) content) w1.
Proof.
intros H.
destruct (verify_link_returns str_of_exn http_head http_get url w) as (ok & w1 & E).
exists ok, w1. split; [exact E|].
cbn [validate_loop]. rewrite H. unfold bind. rewrite E.
now destruct ok.
Qed.


End LoopProps.

(** *** What the validator requests *)









(** *** Main theorems on the validator *)

(** C8.  On a text in which the link pattern matches nowhere the
    validator returns the text itself, prints nothing and makes no
    request (the world is left as it was); so does validating the result
    again.  This holds for every network, for every standard output and
    whether or not the verifier is available. *)
Theorem C8_identity_without_links (World Exn : Type)
    (print : str -> M World Exn unit) (str_of_exn : Exn -> str)
    (http_head http_get : str -> M World Exn Z) (available : bool)
    (text : str) (w : World) :
  findall_links text = [] ->
  validate_grok_report print str_of_exn http_head http_get available text w
  = (Return text, w)
  /\ Eff.bind
       (validate_grok_report print str_of_exn http_head http_get available
          text)
       (validate_grok_report print str_of_exn http_head http_get available) w
     = (Return text, w).
Proof.
  intros H.
  assert (E : validate_grok_report print str_of_exn http_head http_get
                available text w
              = (Return text, w)).
  { unfold validate_grok_report. rewrite H. now destruct available. }
  split; [exact E|]. unfold bind. now rewrite E.
Qed.

Lemma C8_identity_without_links_witness :
  findall_links (u "see [the notes] (draft) at http://plain.example") = []
  /\ validate_grok_report quiet unit_text (answering []) unreachable true
       (u "see [the notes] (draft) at http://plain.example") tt
     = (Return (u "see [the notes] (draft) at http://plain.example"), tt).
Proof.
  split; [vm_compute; reflexivity|].
  apply (@C8_identity_without_links unit unit quiet unit_text
           (answering []) unreachable true
           (u "see [the notes] (draft) at http://plain.example") tt).
  vm_compute; reflexivity.
Defined.








(* ================================================================= *)
(** ** Further properties of the scoring *)

Lemma mem_In (x : str) (xs : list str) : mem x xs = true -> In x xs.
Proof.
  unfold mem. rewrite existsb_exists. intros (y & Hy & E).
  apply eqb_eq in E. now subst.
Qed.

Lemma any_keyword_In (lower : str -> str) (k : str) (keywords : list str)
    (text : str) :
  In k keywords -> contains (lower k) text = true ->
  any_keyword lower keywords text = true.
Proof.
  intros Hk Hc. unfold any_keyword. apply existsb_exists.
  exists (lower k). split; [now apply in_map | exact Hc].
Qed.

(** The tag of the tech matches is none of the three category tags. *)
Lemma tag_tech_fresh (ms : list str) :
  tag_tech ms <> tag_money /\ tag_tech ms <> tag_pain
  /\ tag_tech ms <> tag_urgent.
Proof.
  assert (E : u "🛠️" = [128736; 65039]%N) by (vm_compute; reflexivity).
  assert (Em : tag_money = 128176%N :: u "Money") by (vm_compute; reflexivity).
  assert (Ep : tag_pain = 128657%N :: u "Pain") by (vm_compute; reflexivity).
  assert (Eu : tag_urgent = 128293%N :: u "Urgent")
    by (vm_compute; reflexivity).
  unfold tag_tech. rewrite E, Em, Ep, Eu. cbn [app].
  repeat split; intros H; injection H as H _; discriminate H.
Qed.

Lemma in_ordered_tags (bm bp bu : bool) (ms : list str) :
  (In tag_money (ordered_tags bm bp bu ms) <-> bm = true)
  /\ (In tag_pain (ordered_tags bm bp bu ms) <-> bp = true)
  /\ (In tag_urgent (ordered_tags bm bp bu ms) <-> bu = true).
Proof.
  destruct (tag_tech_fresh ms) as (Hm & Hp & Hu).
  assert (Hmp : tag_money <> tag_pain) by (vm_compute; discriminate).
  assert (Hmu : tag_money <> tag_urgent) by (vm_compute; discriminate).
  assert (Hpu : tag_pain <> tag_urgent) by (vm_compute; discriminate).
  assert (piece : forall (b : bool) (t x : str),
             In x (if b then [t] else []) <-> b = true /\ t = x).
  { intros b t x. destruct b; cbn.
    - split.
      + intros [H|[]]. split; [reflexivity | exact H].
      + intros [_ H]. left. exact H.
    - split.
      + intros [].
      + intros [H _]. discriminate H. }
  assert (tech : forall x : str,
             In x (match ms with [] => [] | _ :: _ => [tag_tech ms] end)
             -> tag_tech ms = x).
  { intros x. destruct ms; cbn; tauto. }
  unfold ordered_tags. rewrite !in_app_iff, !piece.
  split; [|split]; split.
  - intros [[H _]|[[_ H]|[[_ H]|H]]].
    + exact H.
    + symmetry in H. now elim Hmp.
    + symmetry in H. now elim Hmu.
    + apply tech in H. now elim Hm.
  - intros ->. left. now split.
  - intros [[_ H]|[[H _]|[[_ H]|H]]].
    + now elim Hmp.
    + exact H.
    + symmetry in H. now elim Hpu.
    + apply tech in H. now elim Hp.
  - intros ->. right. left. now split.
  - intros [[_ H]|[[_ H]|[[H _]|H]]].
    + now elim Hmu.
    + now elim Hpu.
    + exact H.
    + apply tech in H. now elim Hu.
  - intros ->. right. right. left. now split.
Qed.

(** X1.  The score of a lead is one of twelve values, from 10 to 210,
    and a lead has between one and four tags. *)
Theorem scores_are_few (lower : str -> str) (items : list RawItem) :
  Forall (fun l => In (desperation_score l) possible_scores
                   /\ (10 <= desperation_score l <= 210)%Z
                   /\ 1 <= length (tags l) <= 4)
         (fetch_leads lower items).
Proof.
  apply (Permutation_Forall (Permutation_sym (fetch_leads_perm lower items))).
  apply Forall_forall. intros l Hl.
  apply in_flat_map in Hl. destruct Hl as (it & _ & Hl).
  unfold lead_of in Hl. rewrite analyze_by_category in Hl.
  unfold qualifies, ordered_tags, weighted_score, possible_scores in *.
  destruct (money_match lower _), (pain_match lower _),
    (urgency_match lower _), (tech_matches lower _);
    cbn in Hl; try contradiction; destruct Hl as [<-|[]]; cbn;
    repeat split; try lia; tauto.
Qed.

(** X2.  The tags of a lead tell exactly which of Money, Pain and
    Urgency matched, and a lead whose text matches Urgency scores at
    least 100. *)
Theorem tags_reflect_categories (lower : str -> str) (it : RawItem) :
  let text := item_text lower it in
  Forall (fun l =>
            (In tag_money (tags l) <-> money_match lower text = true)
            /\ (In tag_pain (tags l) <-> pain_match lower text = true)
            /\ (In tag_urgent (tags l) <-> urgency_match lower text = true)
            /\ (urgency_match lower text = true ->
                (100 <= desperation_score l)%Z))
         (lead_of lower it).
Proof.
  intros text. unfold lead_of. rewrite analyze_by_category.
  fold (item_text lower it). fold text.
  destruct (qualifies lower text) eqn:Hq; [|constructor].
  destruct (ordered_tags _ _ _ _) as [|tg tgs] eqn:E; [constructor|].
  constructor; [|constructor]. cbn [tags desperation_score]. rewrite <- E.
  destruct (in_ordered_tags (money_match lower text) (pain_match lower text)
              (urgency_match lower text) (tech_matches lower text))
    as (Hm & Hp & Hu).
  split; [exact Hm|]. split; [exact Hp|]. split; [exact Hu|].
  intros ->. unfold weighted_score.
  destruct (money_match lower text), (pain_match lower text),
    (tech_matches lower text); lia.
Qed.

(** X3.  A text that holds one of the urgency keywords 有偿, 急, 救命,
    崩溃 also matches Money or Pain, these being keywords of both lists:
    its lead has the Urgent tag, at least two tags, and a score of at
    least 110. *)
Theorem shared_keyword_never_alone (lower : str -> str) (it : RawItem)
    (k : str) :
  In k shared_urgent_keywords ->
  contains (lower k) (item_text lower it) = true ->
  exists l, lead_of lower it = [l]
    /\ In tag_urgent (tags l)
    /\ 2 <= length (tags l)
    /\ (110 <= desperation_score l)%Z.
Proof.
  intros Hk Hc.
  assert (Hu : urgency_match lower (item_text lower it) = true).
  { apply (any_keyword_In lower k); [|exact Hc].
    destruct Hk as [<-|[<-|[<-|[<-|[]]]]]; apply mem_In;
      vm_compute; reflexivity. }
  assert (Hmp : money_match lower (item_text lower it) = true
                \/ pain_match lower (item_text lower it) = true).
  { destruct Hk as [<-|[<-|[<-|[<-|[]]]]].
    - left. apply (any_keyword_In lower (u "有偿")); [|exact Hc].
      apply mem_In; vm_compute; reflexivity.
    - left. apply (any_keyword_In lower (u "急")); [|exact Hc].
      apply mem_In; vm_compute; reflexivity.
    - right. apply (any_keyword_In lower (u "救命")); [|exact Hc].
      apply mem_In; vm_compute; reflexivity.
    - right. apply (any_keyword_In lower (u "崩溃")); [|exact Hc].
      apply mem_In; vm_compute; reflexivity. }
  unfold lead_of. rewrite analyze_by_category.
  fold (item_text lower it). unfold qualifies. rewrite Hu.
  unfold ordered_tags, weighted_score.
  destruct Hmp as [-> | Hp].
  - cbn [orb]. eexists. split; [reflexivity|]. cbn [tags desperation_score].
    destruct (pain_match lower _), (tech_matches lower _); cbn;
      repeat split; try lia; tauto.
  - rewrite Hp. rewrite orb_true_r. cbn [orb].
    destruct (money_match lower _), (tech_matches lower _);
      (eexists; split; [reflexivity|]); cbn; repeat split; try lia; tauto.
Qed.

Lemma shared_keyword_never_alone_witness :
  In (u "急") shared_urgent_keywords
  /\ contains (ascii_lower (u "急"))
       (item_text ascii_lower
          (mkRawItem (u "jobs") (u "急") (u "https://x.example/3")
                     (u "help") (u ""))) = true
  /\ exists l,
       lead_of ascii_lower
         (mkRawItem (u "jobs") (u "急") (u "https://x.example/3")
                    (u "help") (u "")) = [l]
       /\ In tag_urgent (tags l)
       /\ 2 <= length (tags l)
       /\ (110 <= desperation_score l)%Z.
Proof.
  assert (Hk : In (u "急") shared_urgent_keywords)
    by (apply mem_In; vm_compute; reflexivity).
  assert (Hc : contains (ascii_lower (u "急"))
                 (item_text ascii_lower
                    (mkRawItem (u "jobs") (u "急") (u "https://x.example/3")
                               (u "help") (u ""))) = true)
    by (vm_compute; reflexivity).
  split; [exact Hk|]. split; [exact Hc|].
  exact (@shared_keyword_never_alone ascii_lower _ _ Hk Hc).
Defined.

(* ================================================================= *)
(** ** Further properties of the summary *)

Section ScanLed.
Variable A : Type.
Variable m : str -> option (A * nat).
Variable c0 : char.
(** A pattern that can only match at a [c0]. *)
Hypothesis led : forall c s, c <> c0 -> m (c :: s) = None.

Lemma scan_lits_led (a r : str) :
  lacks c0 a = true -> Re.scan m (a ++ r) = map Re.Lit a ++ Re.scan m r.
Proof.
  unfold Re.scan. induction a as [|c a IH]; simpl; [reflexivity|].
  rewrite andb_true_iff, negb_true_iff, char_eqb_neq. intros [Hc Ha].
  rewrite (led _ Hc). now rewrite IH.
Qed.
End ScanLed.

Lemma html_tag_led (c : char) (s : str) :
  c <> chr "<" -> html_tag (c :: s) = None.
Proof.
  intros Hc. apply char_eqb_neq in Hc. unfold html_tag.
  destruct s as [|c1 r]; [reflexivity|]. now rewrite Hc.
Qed.

Lemma strip_tags_plain (s : str) :
  lacks (chr "<") s = true -> strip_tags s = s.
Proof.
  intros H. unfold strip_tags.
  rewrite <- (app_nil_r s) at 1.
  rewrite (@scan_lits_led _ _ _ html_tag_led s [] H).
  rewrite subst_app, subst_lits. cbn. apply app_nil_r.
Qed.

Lemma close_at_body (b post : str) :
  lacks (chr "<") b = true -> lacks (chr ">") b = true ->
  close_at (b ++ chr ">" :: post) = Some (length b).
Proof.
  induction b as [|c b IH]; cbn [app close_at lacks forallb length].
  - intros _ _. now rewrite char_eqb_refl.
  - rewrite !andb_true_iff, !negb_true_iff. intros [Hl Hb] [Hg Hb'].
    rewrite Hg, Hl. unfold lacks in IH. now rewrite (IH Hb Hb').
Qed.

(** X4.  A description without ['<'] is its own summary when it has at
    most 200 characters, and is cut to 200 characters and "..."
    otherwise: nothing is stripped from plain text. *)
Theorem plain_text_summary (html : str) :
  lacks (chr "<") html = true ->
  _clean_summary html
  = if 200 <? length html then firstn 200 html ++ u "..." else html.
Proof.
  intros H. unfold _clean_summary.
  fold (strip_tags html). now rewrite (strip_tags_plain html H).
Qed.

Lemma plain_text_summary_witness :
  lacks (chr "<") (u "budget 5000, reply > 3 days") = true
  /\ _clean_summary (u "budget 5000, reply > 3 days")
     = u "budget 5000, reply > 3 days".
Proof.
  assert (H : lacks (chr "<") (u "budget 5000, reply > 3 days") = true)
    by (vm_compute; reflexivity).
  split; [exact H|].
  rewrite (plain_text_summary (u "budget 5000, reply > 3 days") H).
  vm_compute. reflexivity.
Defined.

(** X5.  A tag is removed whole: after text without ['<'], a ['<']
    followed by one character other than ['<'] and by characters other
    than ['<'] and ['>'], then a ['>'], leaves no trace, and stripping
    goes on with what follows. *)
Theorem tag_is_removed (pre b post : str) (b0 : char) :
  lacks (chr "<") pre = true -> b0 <> chr "<" ->
  lacks (chr "<") b = true -> lacks (chr ">") b = true ->
  strip_tags (pre ++ chr "<" :: b0 :: b ++ chr ">" :: post)
  = pre ++ strip_tags post.
Proof.
  intros Hpre Hb0 Hl Hg. unfold strip_tags.
  rewrite (@scan_lits_led _ _ _ html_tag_led pre _ Hpre).
  rewrite subst_app, subst_lits. f_equal.
  assert (Hm : html_tag (chr "<" :: (b0 :: b ++ [chr ">"]) ++ post)
               = Some (tt, length (b0 :: b ++ [chr ">"]))).
  { cbn [app]. rewrite <- app_assoc. cbn [app].
    unfold html_tag. rewrite char_eqb_refl.
    apply char_eqb_neq in Hb0. rewrite Hb0. cbn [negb andb].
    rewrite (close_at_body b post Hl Hg). cbn [option_map length].
    rewrite length_app. cbn [length]. do 3 f_equal. lia. }
  replace (chr "<" :: b0 :: b ++ chr ">" :: post)
    with (chr "<" :: (b0 :: b ++ [chr ">"]) ++ post)
    by (cbn [app]; now rewrite <- app_assoc).
  rewrite (@scan_hit _ _ _ _ _ _ Hm). reflexivity.
Qed.

Lemma tag_is_removed_witness :
  lacks (chr "<") (u "Need ") = true /\ chr "b" <> chr "<"
  /\ lacks (chr "<") (u " class=x") = true
  /\ lacks (chr ">") (u " class=x") = true
  /\ strip_tags (u "Need <b class=x>help") = u "Need help".
Proof.
  assert (H1 : lacks (chr "<") (u "Need ") = true)
    by (vm_compute; reflexivity).
  assert (H2 : chr "b" <> chr "<") by (vm_compute; discriminate).
  assert (H3 : lacks (chr "<") (u " class=x") = true)
    by (vm_compute; reflexivity).
  assert (H4 : lacks (chr ">") (u " class=x") = true)
    by (vm_compute; reflexivity).
  repeat (split; [assumption|]).
  pose proof (@tag_is_removed (u "Need ") (u " class=x") (u "help")
                (chr "b") H1 H2 H3 H4) as E.
  vm_compute in E. vm_compute. exact E.
Defined.

(* ================================================================= *)
(** ** Properties of [fetch_leads] with its feeds, and of its caller *)

Lemma fetch_leads_positive (lower : str -> str) (items : list RawItem) :
  Forall (fun l => (0 < desperation_score l)%Z) (fetch_leads lower items).
Proof.
  apply (Permutation_Forall (Permutation_sym (fetch_leads_perm lower items))).
  apply Forall_forall. intros l Hl.
  apply in_flat_map in Hl. destruct Hl as (it & _ & Hl).
  destruct (qualifies lower (item_text lower it)) eqn:Hq.
  - destruct (lead_of_qualifying lower it Hq) as (l' & E & _ & Hs & _).
    rewrite E in Hl. now destruct Hl as [<-|[]].
  - rewrite (lead_of_unqualifying lower it Hq) in Hl. destruct Hl.
Qed.

Section FeedProps.
Variable lower : str -> str.
Variable age_days : str -> option Z.
Variable days : Z.
Variable get : str -> V2EXFeeds.response.

Lemma item_loop_reaching (cat : str) (items : list V2EXFeeds.Element) :
  forall all_leads : list Lead,
    snd (V2EXFeeds.item_loop lower age_days days cat items all_leads)
    = all_leads
      ++ flat_map (lead_of lower) (reaching age_days days cat items).
Proof.
  induction items as [|[ti li de pu] rest IH]; intros all_leads.
  - cbn. now rewrite app_nil_r.
  - cbn [V2EXFeeds.item_loop reaching]. unfold complete.
    cbn [V2EXFeeds.find_title V2EXFeeds.find_link
         V2EXFeeds.find_description V2EXFeeds.find_pubDate].
    unfold bind at 1.
    destruct ti as [ti|]; [|cbn; now rewrite app_nil_r].
    assert (Ht : V2EXFeeds.text_or_empty (Some ti) all_leads
                 = (Return (match ti with Some s => s | None => [] end),
                    all_leads)) by now destruct ti.
    rewrite Ht. clear Ht. unfold bind at 1.
    destruct li as [li|]; [|cbn; now rewrite app_nil_r].
    assert (Hl : V2EXFeeds.text_or_empty (Some li) all_leads
                 = (Return (match li with Some s => s | None => [] end),
                    all_leads)) by now destruct li.
    rewrite Hl. clear Hl. unfold bind at 1.
    destruct de as [de|]; [|cbn; now rewrite app_nil_r].
    assert (Hd : V2EXFeeds.text_or_empty (Some de) all_leads
                 = (Return (match de with Some s => s | None => [] end),
                    all_leads)) by now destruct de.
    rewrite Hd. clear Hd. unfold bind at 1.
    destruct pu as [pu|]; [|cbn; now rewrite app_nil_r].
    assert (Hp : V2EXFeeds.text_or_empty (Some pu) all_leads
                 = (Return (match pu with Some s => s | None => [] end),
                    all_leads)) by now destruct pu.
    rewrite Hp. clear Hp.
    destruct (V2EXFeeds.too_old age_days days _); [apply IH|].
    cbn [flat_map]. unfold lead_of at 1.
    cbn [item_title item_description item_link item_pubDate category].
    destruct (_analyze_content lower _ _) as [tgs score].
    destruct tgs as [|tg tgs].
    + cbn [app]. apply IH.
    + unfold bind, V2EXFeeds.append. rewrite IH.
      now rewrite <- app_assoc.
Qed.

Lemma feeds_survivors (categories : list str) :
  forall all_leads : list Lead,
    snd (V2EXFeeds.feeds lower age_days days get categories all_leads)
    = all_leads
      ++ flat_map (lead_of lower)
           (flat_map (fun category =>
                        match get category with
                        | V2EXFeeds.Failure => []
                        | V2EXFeeds.Items items =>
                            reaching age_days days category items
                        end) categories).
Proof.
  induction categories as [|c rest IH]; intros all_leads.
  - cbn. now rewrite app_nil_r.
  - cbn [V2EXFeeds.feeds flat_map]. unfold bind.
    assert (Hf : exists st,
               V2EXFeeds.feed lower age_days days get c all_leads
               = (Return tt, st)
               /\ st = all_leads
                       ++ flat_map (lead_of lower)
                            (match get c with
                             | V2EXFeeds.Failure => []
                             | V2EXFeeds.Items items =>
                                 reaching age_days days c items
                             end)).
    { unfold V2EXFeeds.feed, try_except.
      destruct (get c) as [|items].
      - exists all_leads. cbn. now rewrite app_nil_r.
      - pose proof (item_loop_reaching c items all_leads) as H.
        destruct (V2EXFeeds.item_loop lower age_days days c items all_leads)
          as [[[]|[]] st]; cbn in H; exists st; now split. }
    destruct Hf as (st & -> & ->). rewrite IH, flat_map_app.
    now rewrite app_assoc.
Qed.

Lemma fetch_leads_survivors :
  V2EXFeeds.fetch_leads lower age_days days get
  = fetch_leads lower (survivors age_days days get).
Proof.
  unfold V2EXFeeds.fetch_leads, fetch_leads, survivors.
  now rewrite feeds_survivors.
Qed.
End FeedProps.

(** X6.  [fetch_leads] with its feeds returns what the scoring of the
    items that reach the analysis returns: the items of each feed that
    could be fetched, up to its first item with a missing child, without
    those older than [days]; an item whose date cannot be read is kept.
    So its leads are in descending order of score, with a positive
    score. *)
Theorem fetch_leads_of_feeds (lower : str -> str)
    (age_days : str -> option Z) (days : Z)
    (get : str -> V2EXFeeds.response) :
  V2EXFeeds.fetch_leads lower age_days days get
  = fetch_leads lower (survivors age_days days get)
  /\ StronglySorted score_ge (V2EXFeeds.fetch_leads lower age_days days get)
  /\ Forall (fun l => (0 < desperation_score l)%Z)
       (V2EXFeeds.fetch_leads lower age_days days get)
  /\ (forall p, age_days p = None ->
        V2EXFeeds.too_old age_days days p = false).
Proof.
  rewrite fetch_leads_survivors. split; [reflexivity|]. split; [|split].
  - apply sort_reverse_sorted.
  - apply fetch_leads_positive.
  - intros p Hp. unfold V2EXFeeds.too_old. now rewrite Hp.
Qed.

Lemma filter_all (A : Type) (f : A -> bool) (l : list A) :
  Forall (fun x => f x = true) l -> filter f l = l.
Proof.
  induction 1 as [|x l Hx Hl IH]; [reflexivity|].
  cbn [filter]. now rewrite Hx, IH.
Qed.

Lemma sort_of_sorted (T : Type) (key : T -> Z) (l : list T) :
  StronglySorted (key_le key) l -> sort key l = l.
Proof.
  induction 1 as [|x l Hl IH Hx]; [reflexivity|].
  cbn [sort fold_right]. fold (sort key l). rewrite IH.
  destruct l as [|y r]; [reflexivity|].
  cbn [insert]. apply Forall_inv in Hx. unfold key_le in Hx.
  apply Z.leb_le in Hx. now rewrite Hx.
Qed.

Lemma sort_reverse_of_sorted (T : Type) (key : T -> Z) (l : list T) :
  StronglySorted (fun a b => (key a >= key b)%Z) l ->
  sort_reverse key l = l.
Proof.
  intros H. unfold sort_reverse.
  rewrite sort_of_sorted; [apply rev_involutive|].
  apply StronglySorted_rev in H.
  revert H. generalize (rev l). intros l'.
  induction 1 as [|a r Hr IH Ha]; constructor; [exact IH|].
  eapply Forall_impl; [|exact Ha]. unfold key_le. intros; lia.
Qed.

(** X7.  The selection of [main] changes nothing in what the radar
    returns but its length: the leads all have a positive score and are
    already in order, so the result is [leads[:limit]], the leads of
    highest score in the order of the radar; for a negative [limit] that
    is all the leads but the last [-limit]. *)
Theorem selection_is_a_prefix (lower : str -> str)
    (age_days : str -> option Z) (days : Z)
    (get : str -> V2EXFeeds.response) (limit : Z) :
  let leads := V2EXFeeds.fetch_leads lower age_days days get in
  BountyHunter.high_value_leads limit leads
  = BountyHunter.slice_to limit leads
  /\ (exists rest, leads = BountyHunter.high_value_leads limit leads ++ rest)
  /\ ((0 <= limit)%Z ->
      length (BountyHunter.high_value_leads limit leads)
      = Nat.min (Z.to_nat limit) (length leads))
  /\ ((limit < 0)%Z ->
      length (BountyHunter.high_value_leads limit leads)
      = length leads - Z.to_nat (- limit)).
Proof.
  intros leads.
  assert (E : BountyHunter.high_value_leads limit leads
              = BountyHunter.slice_to limit leads).
  { unfold BountyHunter.high_value_leads, leads.
    rewrite fetch_leads_survivors.
    rewrite filter_all.
    - now rewrite sort_reverse_of_sorted by apply sort_reverse_sorted.
    - eapply Forall_impl; [|apply fetch_leads_positive].
      cbv beta. intros l Hl. now apply Z.ltb_lt. }
  rewrite E. split; [reflexivity|]. unfold BountyHunter.slice_to.
  split; [|split].
  - destruct (0 <=? limit)%Z.
    + exists (skipn (Z.to_nat limit) leads).
      now rewrite firstn_skipn.
    + exists (skipn (Z.to_nat (Z.of_nat (length leads) + limit)) leads).
      now rewrite firstn_skipn.
  - intros H. apply Z.leb_le in H. rewrite H. apply length_firstn.
  - intros H. assert (Hn : (0 <=? limit)%Z = false) by now apply Z.leb_gt.
    rewrite Hn, length_firstn. lia.
Qed.

(** X8.  The icon of a lead is the fire when Urgency matched or Money
    matched together with a technology keyword, the warning sign when
    only Pain matched beside a technology keyword, and the briefcase
    when no technology keyword and no Urgency matched. *)
Theorem icon_by_category (lower : str -> str) (it : RawItem) :
  let text := item_text lower it in
  Forall (fun l =>
            BountyHunter.urgency_icon l
            = if urgency_match lower text
                 || (money_match lower text && tech_match lower text)
              then u "🔥"
              else if tech_match lower text then u "⚠️" else u "💼")
         (lead_of lower it).
Proof.
  intros text. unfold lead_of. rewrite analyze_by_category.
  fold (item_text lower it). fold text.
  unfold qualifies, tech_match, ordered_tags, weighted_score.
  destruct (money_match lower text), (pain_match lower text),
    (urgency_match lower text), (tech_matches lower text);
    cbn [orb andb app]; repeat constructor.
Qed.

(* ================================================================= *)
(** ** Further properties of the verifier and of the validator *)

(** The requests of [verify_link], recorded, and its outcome, for every
    standard output. *)

Section ConsoleProps.
Variables World Exn : Type.
Variable print : str -> M World Exn unit.
Variable str_of_exn : Exn -> str.
Variables http_head http_get : str -> M World Exn Z.

Lemma verify_link_outcome (url : str) (w : World) :
  match verify_link print str_of_exn http_head http_get url w with
  | (Return b, _) =>
      b = match last_response http_head http_get url w with
          | Return c => (c =? 200)%Z
          | Raise _ => false
          end
  | (Raise e, w') =>
      exists e0 w0,
        last_response http_head http_get url w = Raise e0
        /\ print (failure_message str_of_exn url e0) w0 = (Raise e, w')
  end.
Proof.
  unfold verify_link, try_except, bind, ret, last_response.
  destruct (http_head url w) as [[c|e] w1].
  - destruct (c =? 200)%Z eqn:E2; cbn [orb]; [hnf; now rewrite E2|].
    destruct (c =? 404)%Z eqn:E4; cbn [orb]; [hnf; now rewrite E2|].
    destruct (http_get url w1) as [[c2|e2] w2]; cbn [fst];
      [hnf; reflexivity|].
    destruct (print _ w2) as [[[]|e'] w3] eqn:Ep; hnf; [reflexivity|].
    exists e2, w2. split; [reflexivity | exact Ep].
  - destruct (print _ w1) as [[[]|e'] w3] eqn:Ep; hnf; [reflexivity|].
    exists e, w1. split; [reflexivity | exact Ep].
Qed.

Lemma verify_link_raises (url : str) (w : World) (e : Exn) (w' : World) :
  verify_link print str_of_exn http_head http_get url w = (Raise e, w') ->
  raised_by print e.
Proof.
  intros E. pose proof (verify_link_outcome url w) as H. rewrite E in H.
  destruct H as (e0 & w0 & _ & Hp). do 3 eexists; exact Hp.
Qed.

Lemma loop_raises (ms : list (str * str)) :
  forall (content : str) (w : World) (e : Exn) (w' : World),
  validate_loop print str_of_exn http_head http_get ms content w
  = (Raise e, w') ->
  raised_by print e.
Proof.
  induction ms as [|[t url] ms IH]; intros content w e w'.
  - discriminate.
  - cbn [validate_loop]. destruct (skipped url); [apply IH|].
    unfold bind.
    destruct (verify_link print str_of_exn http_head http_get url w)
      as [[ok|e1] w1] eqn:Ev.
    + destruct ok; cbn [negb].
      * destruct (print _ w1) as [[[]|e2] w2] eqn:Ep; [apply IH|].
        intros H. injection H as <- <-. do 3 eexists; exact Ep.
      * destruct (print _ w1) as [[[]|e2] w2] eqn:Ep; [apply IH|].
        intros H. injection H as <- <-. do 3 eexists; exact Ep.
    + intros H. injection H as <- <-.
      exact (verify_link_raises _ _ Ev).
Qed.

Lemma validate_raises (available : bool) (text : str) (w : World)
    (e : Exn) (w' : World) :
  validate_grok_report print str_of_exn http_head http_get available text w
  = (Raise e, w') ->
  raised_by print e.
Proof.
  unfold validate_grok_report.
  destruct available; cbn [negb]; [|discriminate].
  destruct (findall_links text) as [|m ms]; [discriminate|].
  unfold bind. destruct (print _ w) as [[[]|e1] w1] eqn:Ep.
  - apply loop_raises.
  - intros H. injection H as <- <-. do 3 eexists; exact Ep.
Qed.

(** When every check answers [true], what the loop returns is the text
    it was given. *)
Lemma loop_all_live (ms : list (str * str)) :
  (forall url w, exists w',
      verify_link print str_of_exn http_head http_get url w
      = (Return true, w')) ->
  forall (content out : str) (w w' : World),
  validate_loop print str_of_exn http_head http_get ms content w
  = (Return out, w') ->
  out = content.
Proof.
  intros Hlive. induction ms as [|[t url] ms IH]; intros content out w w'.
  - intros H. now injection H as <- _.
  - cbn [validate_loop]. destruct (skipped url); [apply IH|].
    unfold bind. destruct (Hlive url w) as (w1 & ->). cbn [negb].
    destruct (print _ w1) as [[[]|e2] w2]; [apply IH|discriminate].
Qed.

(** *** The requests, recorded

    [print'] is the standard output in a world that also holds the
    record of the requests, which it leaves alone. *)
Variable print' : str -> M (World * list (method * str)) Exn unit.
Hypothesis print_beside :
  forall s w tr, print' s (w, tr) = beside (print s) (w, tr).

Lemma verify_link_tracing (url : str) (w : World)
    (tr : list (method * str)) :
  exists r w',
    verify_link print str_of_exn http_head http_get url w = (r, w')
    /\ verify_link print' str_of_exn (tracing HEAD http_head)
         (tracing GET http_get) url (w, tr)
       = (r,
          (w', tr ++ (HEAD, url)
                  :: match http_head url w with
                     | (Return c, _) =>
                         if (c =? 200)%Z || (c =? 404)%Z then []
                         else [(GET, url)]
                     | (Raise _, _) => []
                     end)).
Proof.
  unfold verify_link, try_except, bind, ret, tracing. cbn [fst snd].
  destruct (http_head url w) as [[c|e] w1].
  - destruct (c =? 200)%Z; cbn [orb];
      [do 2 eexists; split; reflexivity|].
    destruct (c =? 404)%Z; cbn [orb];
      [do 2 eexists; split; reflexivity|].
    cbn [fst snd].
    destruct (http_get url w1) as [[c2|e2] w2]; cbn [fst snd];
      rewrite <- app_assoc; [do 2 eexists; split; reflexivity|].
    rewrite print_beside. unfold beside. cbn [fst snd].
    destruct (print _ w2) as [[[]|e'] w3]; do 2 eexists; split; reflexivity.
  - rewrite print_beside. unfold beside. cbn [fst snd].
    destruct (print _ w1) as [[[]|e'] w3]; do 2 eexists; split; reflexivity.
Qed.

Lemma loop_tracing (ms : list (str * str)) :
  forall (content : str) (w : World) (tr : list (method * str)),
  exists r w' sent done rest,
    validate_loop print' str_of_exn (tracing HEAD http_head)
      (tracing GET http_get) ms content (w, tr)
    = (r, (w', tr ++ sent))
    /\ validate_loop print str_of_exn http_head http_get ms content w
       = (r, w')
    /\ filter (fun url => negb (skipped url)) (map snd ms) = done ++ rest
    /\ filter is_head sent = map (pair HEAD) done
    /\ Forall (fun q => In (snd q) done) sent
    /\ match r with
       | Return _ => rest = []
       | Raise e => raised_by print e
       end.
Proof.
  induction ms as [|[t url] ms IH]; intros content w tr.
  - exists (Return content), w, [], [], []. rewrite app_nil_r.
    now repeat split.
  - cbn [validate_loop map snd filter].
    destruct (skipped url) eqn:Hs; cbn [negb]; [apply IH|].
    unfold bind.
    destruct (verify_link_tracing url w tr) as (r1 & w1 & Ev & Et).
    rewrite Ev, Et.
    set (s1 := (HEAD, url) :: _) in *.
    assert (Hs1 : filter is_head s1 = [(HEAD, url)]).
    { unfold s1. destruct (http_head url w) as [[c|e] w0]; [|reflexivity].
      now destruct ((c =? 200)%Z || (c =? 404)%Z). }
    assert (Hu1 : forall d, Forall (fun q => In (snd q) (url :: d)) s1).
    { intros d. unfold s1.
      destruct (http_head url w) as [[c|e] w0];
        [destruct ((c =? 200)%Z || (c =? 404)%Z)|];
        repeat constructor. }
    destruct r1 as [ok|e1].
    2:{ exists (Raise e1), w1, s1, [url],
          (filter (fun url => negb (skipped url)) (map snd ms)).
        split; [reflexivity|]. split; [reflexivity|].
        split; [reflexivity|]. split; [exact Hs1|].
        split; [apply Hu1|].
        exact (verify_link_raises _ _ Ev). }
    assert (turn : forall (s content' : str),
               exists r w' sent done rest,
                 (let (r0, w2) := print' s (w1, tr ++ s1) in
                  match r0 with
                  | Return _ =>
                      validate_loop print' str_of_exn (tracing HEAD http_head)
                        (tracing GET http_get) ms content' w2
                  | Raise e => (Raise e, w2)
                  end) = (r, (w', tr ++ sent))
                 /\ (let (r0, w2) := print s w1 in
                     match r0 with
                     | Return _ =>
                         validate_loop print str_of_exn http_head http_get
                           ms content' w2
                     | Raise e => (Raise e, w2)
                     end) = (r, w')
                 /\ url :: filter (fun url => negb (skipped url)) (map snd ms)
                    = done ++ rest
                 /\ filter is_head sent = map (pair HEAD) done
                 /\ Forall (fun q => In (snd q) done) sent
                 /\ match r with
                    | Return _ => rest = []
                    | Raise e => raised_by print e
                    end).
    { intros s content'. rewrite print_beside. unfold beside. cbn [fst snd].
      destruct (print s w1) as [[[]|e2] w2] eqn:Ep.
      - destruct (IH content' w2 (tr ++ s1))
          as (r & w' & s2 & d & rest & E1 & E2 & Hd & Hf & Hin & Hr).
        exists r, w', (s1 ++ s2), (url :: d), rest.
        rewrite app_assoc, filter_app, Hs1, Hf, Hd.
        split; [exact E1|]. split; [exact E2|]. split; [reflexivity|].
        split; [reflexivity|]. split; [|exact Hr].
        apply Forall_app. split; [apply Hu1|].
        eapply Forall_impl; [|exact Hin]. intros q Hq. now right.
      - exists (Raise e2), w2, s1, [url],
          (filter (fun url => negb (skipped url)) (map snd ms)).
        split; [reflexivity|]. split; [reflexivity|].
        split; [reflexivity|]. split; [exact Hs1|].
        split; [apply Hu1|].
        do 3 eexists; exact Ep. }
    destruct ok; cbn [negb]; apply turn.
Qed.

Lemma validate_tracing (available : bool) (text : str) (w : World)
    (tr : list (method * str)) :
  exists r w' sent done rest,
    validate_grok_report print' str_of_exn (tracing HEAD http_head)
      (tracing GET http_get) available text (w, tr)
    = (r, (w', tr ++ sent))
    /\ validate_grok_report print str_of_exn http_head http_get available
         text w
       = (r, w')
    /\ (available = false -> sent = [])
    /\ filter (fun url => negb (skipped url)) (map snd (findall_links text))
       = done ++ rest
    /\ filter is_head sent = map (pair HEAD) done
    /\ Forall (fun q => In (snd q) done) sent
    /\ match r with
       | Return _ => available = true -> rest = []
       | Raise e => raised_by print e
       end.
Proof.
  unfold validate_grok_report.
  destruct available; cbn [negb].
  2:{ exists (Return text), w, [], [],
        (filter (fun url => negb (skipped url))
           (map snd (findall_links text))).
      rewrite app_nil_r.
      split; [reflexivity|]. split; [reflexivity|]. split; [reflexivity|].
      split; [reflexivity|]. split; [reflexivity|].
      split; [constructor | discriminate]. }
  destruct (findall_links text) as [|m ms] eqn:E.
  - exists (Return text), w, [], [], []. rewrite app_nil_r.
    split; [reflexivity|]. split; [reflexivity|]. split; [discriminate|].
    split; [reflexivity|]. split; [reflexivity|].
    split; [constructor | reflexivity].
  - unfold bind. rewrite print_beside. unfold beside. cbn [fst snd].
    destruct (print _ w) as [[[]|e1] w1] eqn:Ep.
    + destruct (loop_tracing (m :: ms) text w1 tr)
        as (r & w' & sent & d & rest & E1 & E2 & Hd & Hf & Hin & Hr).
      exists r, w', sent, d, rest. split; [exact E1|]. split; [exact E2|].
      split; [discriminate|]. split; [exact Hd|]. split; [exact Hf|].
      split; [exact Hin|].
      destruct r; [now intros _ | exact Hr].
    + exists (Raise e1), w1, [], [],
        (filter (fun url => negb (skipped url)) (map snd (m :: ms))).
      rewrite app_nil_r.
      split; [reflexivity|]. split; [reflexivity|]. split; [discriminate|].
      split; [reflexivity|]. split; [reflexivity|].
      split; [constructor|].
      do 3 eexists; exact Ep.
Qed.

End ConsoleProps.

Lemma bind_unfold (W E A B : Type) (m : M W E A) (f : A -> M W E B)
    (w : W) :
  bind m f w
  = match m w with
    | (Return a, w1) => f a w1
    | (Raise e, w1) => (Raise e, w1)
    end.
Proof. reflexivity. Qed.

Lemma bind_assoc (W E A B C : Type) (m : M W E A) (f : A -> M W E B)
    (g : B -> M W E C) (w : W) :
  bind (bind m f) g w = bind m (fun x => bind (f x) g) w.
Proof. unfold bind. now destruct (m w) as [[a|e] w1]. Qed.

Lemma bind_quiet (W E A : Type) (s : str) (f : unit -> M W E A) (w : W) :
  bind (quiet s) f w = f tt w.
Proof. reflexivity. Qed.

Lemma quiet_accepting (W E : Type) : accepting (@quiet W E).
Proof. intros s w. now exists w. Qed.

Lemma accepting_not_raised (W E : Type) (print : str -> M W E unit) (e : E) :
  accepting print -> ~ raised_by print e.
Proof.
  intros Ha (s & w & w' & H). destruct (Ha s w) as (w1 & H1).
  rewrite H1 in H. discriminate H.
Qed.

(** X9.  [verify_link] sends one HEAD request for the URL it is given,
    and one GET request for the same URL exactly when the HEAD request
    returned a status other than 200 and 404; it sends nothing else, and
    nothing after a HEAD request that raised.  When it returns, the
    boolean is [true] exactly when the last request made returned a
    response of status 200.  It raises only when the last request raised
    and the [print] of the handler raised in its turn, and what it
    raises is the exception of [print]; on a standard output that takes
    every text it returns a boolean. *)
Theorem verify_link_requests (World Exn : Type)
    (print : str -> M World Exn unit) (str_of_exn : Exn -> str)
    (http_head http_get : str -> M World Exn Z) (url : str) (w : World)
    (tr : list (method * str)) :
  exists (r : result Exn bool) (w' : World) (sent : list (method * str)),
    verify_link print str_of_exn http_head http_get url w = (r, w')
    /\ verify_link (fun s => beside (print s)) str_of_exn
         (tracing HEAD http_head) (tracing GET http_get) url (w, tr)
       = (r, (w', tr ++ sent))
    /\ (sent = [(HEAD, url)] \/ sent = [(HEAD, url); (GET, url)])
    /\ (sent = [(HEAD, url); (GET, url)]
        <-> exists c w1, http_head url w = (Return c, w1)
                         /\ c <> 200%Z /\ c <> 404%Z)
    /\ match r with
       | Return b =>
           b = match last_response http_head http_get url w with
               | Return c => (c =? 200)%Z
               | Raise _ => false
               end
       | Raise e =>
           exists e0 w0,
             last_response http_head http_get url w = Raise e0
             /\ print (failure_message str_of_exn url e0) w0 = (Raise e, w')
       end
    /\ (accepting print -> exists b, r = Return b).
Proof.
  destruct (@verify_link_tracing _ _ print str_of_exn http_head http_get
              (fun s => beside (print s)) (fun _ _ _ => eq_refl) url w tr)
    as (r & w' & E & Et).
  exists r, w'. eexists. split; [exact E|]. split; [exact Et|].
  pose proof (verify_link_outcome print str_of_exn http_head http_get url w)
    as Ho.
  rewrite E in Ho.
  assert (Hacc : accepting print -> exists b, r = Return b).
  { intros Ha. destruct r as [b|e]; [now exists b|].
    destruct Ho as (e0 & w0 & _ & Hp).
    destruct (@accepting_not_raised _ _ print e Ha).
    do 3 eexists; exact Hp. }
  destruct (http_head url w) as [[c|e] w1].
  - destruct (c =? 200)%Z eqn:E2; cbn [orb].
    + apply Z.eqb_eq in E2. split; [now left|]. split; [|now split].
      split; [discriminate|].
      intros (c' & w1' & H & H2 & _). injection H as <- _. contradiction.
    + destruct (c =? 404)%Z eqn:E4; cbn [orb].
      * apply Z.eqb_eq in E4. split; [now left|]. split; [|now split].
        split; [discriminate|].
        intros (c' & w1' & H & _ & H4). injection H as <- _. contradiction.
      * apply Z.eqb_neq in E2, E4. split; [now right|].
        split; [|now split]. split; [|reflexivity].
        intros _. now exists c, w1.
  - split; [now left|]. split; [|now split]. split; [discriminate|].
    intros (c' & w1' & H & _). discriminate H.
Qed.

(** X10.  No exception of a request leaves the validator: what it
    raises, if anything, is an exception that one of its [print] calls
    raised.  So on a standard output that takes every text it returns a
    text, whatever the text and whatever the requests do. *)
Theorem validator_raises_only_from_print (World Exn : Type)
    (print : str -> M World Exn unit) (str_of_exn : Exn -> str)
    (http_head http_get : str -> M World Exn Z) (available : bool)
    (text : str) (w : World) :
  ((exists out w',
       validate_grok_report print str_of_exn http_head http_get available
         text w = (Return out, w'))
   \/ (exists e w',
         validate_grok_report print str_of_exn http_head http_get available
           text w = (Raise e, w')
         /\ raised_by print e))
  /\ (accepting print ->
      exists out w',
        validate_grok_report print str_of_exn http_head http_get available
          text w = (Return out, w')).
Proof.
  destruct (validate_grok_report print str_of_exn http_head http_get
              available text w) as [[out|e] w'] eqn:E.
  - split; [left|intros _]; now exists out, w'.
  - pose proof (validate_raises _ _ _ _ _ _ _ E) as Hr.
    split; [right; now exists e, w'|].
    intros Ha. now destruct (accepting_not_raised Ha Hr).
Qed.

(** A live link whose URL holds a lone surrogate: the validator prints
    the URL after the check, the standard output cannot encode it, and
    the exception of [print] leaves the validator. *)
Example validator_print_raises :
  validate_grok_report utf8_console exn_text (responding []) refusing true
    (u "[a](" ++ surrogate_url ++ u ")") tt
  = (Raise UnicodeEncodeError, tt).
Proof. vm_compute. reflexivity. Qed.

(** X11.  When [verify_link] answers [true] for every URL, the
    validator changes nothing: whatever the text, it returns the text it
    was given, unless one of its [print] calls raises. *)
Theorem live_links_untouched (World Exn : Type)
    (print : str -> M World Exn unit) (str_of_exn : Exn -> str)
    (http_head http_get : str -> M World Exn Z) (available : bool) :
  (forall url w, exists w',
      verify_link print str_of_exn http_head http_get url w
      = (Return true, w')) ->
  forall (text : str) (w : World),
  (exists w',
      validate_grok_report print str_of_exn http_head http_get available
        text w = (Return text, w'))
  \/ (exists e w',
        validate_grok_report print str_of_exn http_head http_get available
          text w = (Raise e, w')
        /\ raised_by print e).
Proof.
  intros Hlive text w.
  destruct (validate_grok_report print str_of_exn http_head http_get
              available text w) as [[out|e] w'] eqn:E.
  - left. exists w'. f_equal. f_equal. revert E.
    unfold validate_grok_report.
    destruct available; cbn [negb]; [|now intros H; injection H as <- _].
    destruct (findall_links text) as [|m ms];
      [now intros H; injection H as <- _|].
    unfold bind. destruct (print _ w) as [[[]|e1] w1]; [|discriminate].
    now apply loop_all_live.
  - right. exists e, w'. split; [reflexivity|].
    exact (validate_raises _ _ _ _ _ _ _ E).
Qed.

Lemma live_links_untouched_witness :
  (forall url (w : unit), exists w',
      verify_link utf8_console exn_text (responding []) refusing url w
      = (Return true, w'))
  /\ ((exists w',
          validate_grok_report utf8_console exn_text (responding []) refusing
            true (u "[a](http://a.example) and [a](http://a.example)") tt
          = (Return (u "[a](http://a.example) and [a](http://a.example)"),
             w'))
      \/ (exists e w',
            validate_grok_report utf8_console exn_text (responding [])
              refusing true
              (u "[a](http://a.example) and [a](http://a.example)") tt
            = (Raise e, w')
            /\ raised_by (@utf8_console unit) e)).
Proof.
  assert (H : forall url (w : unit), exists w',
               verify_link utf8_console exn_text (responding []) refusing
                 url w
               = (Return true, w')).
  { intros url w. exists w. reflexivity. }
  split; [exact H|].
  exact (@live_links_untouched unit exn utf8_console exn_text
           (responding []) refusing true H
           (u "[a](http://a.example) and [a](http://a.example)") tt).
Defined.

(** X12.  The validator calls [verify_link], one HEAD request each time,
    for the URLs of the links it extracts that are not skipped, in the
    order of the text, once per occurrence: a link that occurs twice is
    checked twice.  When it returns it has checked them all; when a
    [print] raises it has checked the first of them.  Without the
    verifier it sends no request at all.  Recording the requests changes
    neither the outcome nor the world it leaves. *)
Theorem validator_head_requests (World Exn : Type)
    (print : str -> M World Exn unit) (str_of_exn : Exn -> str)
    (http_head http_get : str -> M World Exn Z) (available : bool)
    (text : str) (w : World) (tr : list (method * str)) :
  exists r w' sent done rest,
    validate_grok_report (fun s => beside (print s)) str_of_exn
      (tracing HEAD http_head) (tracing GET http_get) available text (w, tr)
    = (r, (w', tr ++ sent))
    /\ validate_grok_report print str_of_exn http_head http_get available
         text w
       = (r, w')
    /\ (available = false -> sent = [])
    /\ filter (fun url => negb (skipped url)) (map snd (findall_links text))
       = done ++ rest
    /\ filter is_head sent = map (pair HEAD) done
    /\ Forall (fun q => In (snd q) done) sent
    /\ match r with
       | Return _ => available = true -> rest = []
       | Raise e => raised_by print e
       end.
Proof.
  exact (@validate_tracing _ _ print str_of_exn http_head http_get
           (fun s => beside (print s)) (fun _ _ _ => eq_refl)
           available text w tr).
Qed.

(** *** Links that occur more than once *)

Lemma add_marks_bump (t url : str) (fs : list (str * str))
    (es : list entry) :
  add_marks fs (bump t url es) = add_marks ((t, url) :: fs) es.
Proof.
  unfold add_marks, bump. rewrite map_map. apply map_ext.
  intros [[[t' url'] n] seg]. unfold count_pair. cbn [filter fst snd].
  destruct (eqb t t' && eqb url url'); cbn [length]; f_equal; f_equal; lia.
Qed.

Lemma add_marks_nil (es : list entry) : add_marks [] es = es.
Proof.
  unfold add_marks. rewrite <- (map_id es) at 2. apply map_ext.
  intros [[[t url] n] seg]. cbn. now rewrite Nat.add_0_r.
Qed.

Lemma add_marks_plain (fs : list (str * str)) (ls : list (str * str * str)) :
  add_marks fs (plain ls) = tally fs ls.
Proof.
  unfold add_marks, plain, tally. rewrite map_map. apply map_ext.
  now intros [[t url] seg].
Qed.

Section TallyProps.
Variables World Exn : Type.
Variable str_of_exn : Exn -> str.
Variables http_head http_get : str -> M World Exn Z.

Lemma loop_tally (seg0 : str) (ms : list (str * str)) :
  lacks (chr "[") seg0 = true -> Forall delimited ms ->
  forall (es : list entry) (w : World),
    forallb wf_link (skeleton es) = true ->
    exists fs w',
      failed_probes quiet str_of_exn http_head http_get ms w = (Return fs, w')
      /\ validate_loop quiet str_of_exn http_head http_get ms
        (seg0 ++ render es) w
         = (Return (seg0 ++ render (add_marks fs es)), w').
Proof.
  intros H0. induction 1 as [|[t url] ms [Ht Hu] Hms IH]; intros es w Hes.
  - exists [], w. rewrite add_marks_nil. now split.
  - cbn [fst snd] in Ht, Hu. cbn [failed_probes].
    destruct (skipped url) eqn:Hs.
    + rewrite (loop_skipped str_of_exn http_head http_get t url ms _ Hs). now apply IH.
    + destruct (loop_checked str_of_exn http_head http_get t url ms
                  (seg0 ++ render es) w Hs) as (ok & w1 & Ev & ->).
      unfold bind at 1. rewrite Ev. destruct ok.
      * destruct (IH es w1 Hes) as (fs & w' & Ef & El).
        exists fs, w'. unfold bind, ret. now rewrite Ef.
      * rewrite (replace_render _ _ _ _ Ht Hu H0 Hes).
        destruct (IH (bump t url es) w1) as (fs & w' & Ef & El);
          [now rewrite skeleton_bump|].
        exists ((t, url) :: fs), w'. unfold bind, ret. rewrite Ef.
        split; [reflexivity|]. now rewrite <- add_marks_bump.
Qed.

Lemma failed_probes_by_url (live : str -> bool) (ms : list (str * str)) :
  (forall url w, exists w', verify_link quiet str_of_exn http_head http_get
      url w = (Return (live
          url), w')) ->
  forall w, exists w',
    failed_probes quiet str_of_exn http_head http_get ms w
    = (Return (filter (fun p => negb (skipped (snd p) || live (snd p))) ms),
       w').
Proof.
  intros Hlive. induction ms as [|[t url] ms IH]; intros w.
  - now exists w.
  - cbn [failed_probes filter snd]. destruct (skipped url) eqn:Hs.
    + cbn [orb negb]. apply IH.
    + cbn [orb]. unfold bind at 1.
      destruct (Hlive url w) as (w1 & ->).
      destruct (IH w1) as (w' & E). exists w'.
      unfold bind, ret. rewrite E. now destruct (live url).
Qed.
End TallyProps.

Lemma count_pair_filter (f : str * str -> bool) (t url : str)
    (ms : list (str * str)) :
  count_pair t url (filter f ms)
  = if f (t, url) then count_pair t url ms else 0.
Proof.
  unfold count_pair. induction ms as [|[t' url'] ms IH].
  - now destruct (f (t, url)).
  - cbn [filter fst snd].
    destruct (eqb t' t && eqb url' url) eqn:E.
    + rewrite andb_true_iff, !eqb_eq in E. destruct E as [-> ->].
      destruct (f (t, url)) eqn:Ef.
      * cbn [filter fst snd]. rewrite !eqb_refl. cbn [andb length].
        now rewrite IH.
      * exact IH.
    + destruct (f (t', url')); [|exact IH].
      cbn [filter fst snd]. rewrite E. exact IH.
Qed.

(** X13.  In a text whose links do not nest, each link is followed in
    the result by as many warnings as there are occurrences of the same
    link for which [verify_link] answered [false]: every failed check of
    a link adds a warning after all its occurrences.  The standard
    output is one that takes every text. *)
Theorem warnings_count_failures (World Exn : Type)
    (str_of_exn : Exn -> str)
    (http_head http_get : str -> M World Exn Z)
    (seg0 : str) (ls : list (str * str * str)) (w : World) :
  wf_text seg0 ls = true ->
  exists fs w',
    failed_probes quiet str_of_exn http_head http_get (pairs ls) w =
      (Return fs, w')
    /\ validate_grok_report quiet str_of_exn http_head http_get true
         (seg0 ++ render (plain ls)) w
       = (Return (seg0 ++ render (tally fs ls)), w').
Proof.
  intros Hwf. unfold validate_grok_report. cbn [negb].
  rewrite (findall_render _ _ Hwf).
  unfold wf_text in Hwf. rewrite andb_true_iff in Hwf.
  destruct Hwf as [H0 Hls].
  destruct (@loop_tally _ _ str_of_exn http_head http_get seg0 (pairs ls) H0
              (wf_links_delimited ls Hls) (plain ls) w)
    as (fs & w' & Ef & El); [now rewrite skeleton_plain|].
  rewrite add_marks_plain in El.
  exists fs, w'. split; [exact Ef|].
  destruct ls as [|l ls]; [|exact El].
  cbn in Ef. injection Ef as <- <-. reflexivity.
Qed.

Lemma warnings_count_failures_witness :
  wf_text (u "")
    [(u "Bad", u "https://dead.example", u " ");
     (u "Bad", u "https://dead.example", u "")] = true
  /\ validate_grok_report quiet unit_text
       (answering [u "https://dead.example"]) unreachable true
       (u "[Bad](https://dead.example) [Bad](https://dead.example)") tt
     = (Return (render [(u "Bad", u "https://dead.example", 2, u " ");
                        (u "Bad", u "https://dead.example", 2, u "")]), tt).
Proof.
  assert (Hwf : wf_text (u "")
                  [(u "Bad", u "https://dead.example", u " ");
                   (u "Bad", u "https://dead.example", u "")] = true)
    by (vm_compute; reflexivity).
  split; [exact Hwf|].
  destruct (@warnings_count_failures unit unit unit_text
              (answering [u "https://dead.example"]) unreachable (u "")
              [(u "Bad", u "https://dead.example", u " ");
               (u "Bad", u "https://dead.example", u "")] tt Hwf)
    as (fs & w' & Ef & Ev).
  vm_compute in Ef. injection Ef as <- <-.
  vm_compute in Ev. vm_compute. exact Ev.
Defined.

(** X14.  When the answer of [verify_link] depends on the URL alone, a
    link whose URL is neither skipped nor live, and which occurs k times
    in a text whose links do not nest, is followed by k warnings at each
    of its occurrences; the other links are followed by none.  The
    standard output is one that takes every text. *)
Theorem repeated_dead_link (World Exn : Type)
    (str_of_exn : Exn -> str)
    (http_head http_get : str -> M World Exn Z) (live : str -> bool)
    (seg0 : str) (ls : list (str * str * str)) (w : World) :
  (forall url w, exists w', verify_link quiet str_of_exn http_head http_get
      url w = (Return (live
          url), w')) ->
  wf_text seg0 ls = true ->
  exists w',
    validate_grok_report quiet str_of_exn http_head http_get true
      (seg0 ++ render (plain ls)) w
    = (Return (seg0 ++ render (by_occurrences live ls)), w').
Proof.
  intros Hlive Hwf. unfold validate_grok_report. cbn [negb].
  rewrite (findall_render _ _ Hwf).
  unfold wf_text in Hwf. rewrite andb_true_iff in Hwf.
  destruct Hwf as [H0 Hls].
  destruct (@loop_tally _ _ str_of_exn http_head http_get seg0 (pairs ls) H0
              (wf_links_delimited ls Hls) (plain ls) w)
    as (fs & w' & Ef & El); [now rewrite skeleton_plain|].
  destruct (failed_probes_by_url str_of_exn http_head http_get live (pairs ls) Hlive w)
    as (w2 & Ef'). rewrite Ef' in Ef. injection Ef as <- <-.
  rewrite add_marks_plain in El.
  assert (Et : tally (filter (fun p => negb (skipped (snd p) || live (snd p)))
                        (pairs ls)) ls
               = by_occurrences live ls).
  { unfold tally, by_occurrences. apply map_ext. intros [[t url] seg].
    rewrite count_pair_filter. cbn [snd].
    now destruct (skipped url || live url). }
  rewrite Et in El. exists w2.
  destruct ls as [|l ls]; exact El.
Qed.

Lemma repeated_dead_link_witness :
  (forall url w, exists w', verify_link quiet unit_text
          (answering [u "http://d.example"]) unreachable url w
      = (Return (negb (mem url [u "http://d.example"])), w'))
  /\ wf_text (u "")
       [(u "a", u "http://d.example", u ", ");
        (u "a", u "http://d.example", u ", ");
        (u "b", u "http://ok.example", u "")] = true
  /\ exists w',
       validate_grok_report quiet unit_text (answering [u "http://d.example"])
           unreachable
         true
         (u "[a](http://d.example), [a](http://d.example), [b](http://ok.example)")
         tt
       = (Return (render [(u "a", u "http://d.example", 2, u ", ");
                          (u "a", u "http://d.example", 2, u ", ");
                          (u "b", u "http://ok.example", 0, u "")]), w').
Proof.
  assert (Hl : forall url w, exists w',
               verify_link quiet unit_text (answering [u "http://d.example"])
                   unreachable
                 url w
               = (Return (negb (mem url [u "http://d.example"])), w')).
  { intros url w. exists w. rewrite verify_link_cases. unfold answering.
    destruct (mem url [u "http://d.example"]); reflexivity. }
  assert (Hwf : wf_text (u "")
                  [(u "a", u "http://d.example", u ", ");
                   (u "a", u "http://d.example", u ", ");
                   (u "b", u "http://ok.example", u "")] = true)
    by (vm_compute; reflexivity).
  split; [exact Hl|]. split; [exact Hwf|].
  destruct (@repeated_dead_link unit unit unit_text
              (answering [u "http://d.example"]) unreachable
              (fun url => negb (mem url [u "http://d.example"]))
              (u "")
              [(u "a", u "http://d.example", u ", ");
               (u "a", u "http://d.example", u ", ");
               (u "b", u "http://ok.example", u "")] tt Hl Hwf)
    as (w' & Ev).
  exists w'. vm_compute in Ev. vm_compute. exact Ev.
Defined.

(* ================================================================= *)
(** ** Properties of the link pattern and of the alpha radar *)

Lemma span_until_inv (c : char) (s a b : str) :
  Re.span_until c s = Some (a, b) ->
  s = a ++ c :: b /\ lacks c a = true.
Proof.
  revert a. induction s as [|x r IH]; intros a; cbn [Re.span_until].
  - discriminate.
  - destruct (char_eqb x c) eqn:E.
    + intros H. injection H as <- <-. apply char_eqb_eq in E. subst x.
      now split.
    + destruct (Re.span_until c r) as [[a' b']|]; [|discriminate].
      intros H. injection H as <- <-.
      destruct (IH a' eq_refl) as [-> Hl]. split; [reflexivity|].
      cbn [lacks forallb]. rewrite E. exact Hl.
Qed.

Lemma scheme_http (s sch body : str) :
  scheme s = Some (sch, body) -> startswith (u "http") sch = true.
Proof.
  assert (Eh : u "http" = [104; 116; 116; 112]%N) by (vm_compute; reflexivity).
  unfold scheme. rewrite Eh.
  destruct (startswith [104; 116; 116; 112]%N s); [|discriminate].
  destruct (skipn 4 s) as [|c r'].
  - destruct (startswith (u "://") []); [|discriminate].
    intros H. injection H as <- _. reflexivity.
  - destruct (char_eqb c (chr "s")).
    + destruct (startswith (u "://") r'); [|discriminate].
      intros H. injection H as <- _. reflexivity.
    + destruct (startswith (u "://") (c :: r')); [|discriminate].
      intros H. injection H as <- _. reflexivity.
Qed.

(** What a match of the link pattern is. *)
Lemma link_pattern_inv (s t url : str) (n : nat) :
  link_pattern s = Some ((t, url), n) ->
  (exists rest, s = old_link t url ++ rest)
  /\ S n = length (old_link t url)
  /\ t <> [] /\ lacks (chr "]") t = true /\ lacks (chr ")") url = true
  /\ startswith (u "http") url = true.
Proof.
  unfold link_pattern. destruct s as [|c r]; [discriminate|].
  destruct (char_eqb c (chr "[")) eqn:Ec; [|discriminate].
  apply char_eqb_eq in Ec. subst c.
  destruct (Re.span_until (chr "]") r) as [[title r1]|] eqn:E1;
    [|discriminate].
  apply span_until_inv in E1. destruct E1 as [-> Ht].
  destruct title as [|t0 t1]; [discriminate|].
  destruct r1 as [|c1 r2]; [discriminate|].
  destruct (char_eqb c1 (chr "(")) eqn:Ec1; [|discriminate].
  apply char_eqb_eq in Ec1. subst c1.
  destruct (scheme r2) as [[sch r3]|] eqn:E2; [|discriminate].
  pose proof (scheme_http _ E2) as Hh.
  destruct (scheme_app _ E2) as [-> _].
  destruct (Re.span_until (chr ")") r3) as [[rest r4]|] eqn:E3;
    [|discriminate].
  apply span_until_inv in E3. destruct E3 as [-> Hr].
  destruct rest as [|b0 b1]; [discriminate|].
  intros H. injection H as <- <- <-.
  assert (Hsch : lacks (chr ")") sch = true).
  { clear - E2. unfold scheme in E2.
    destruct (startswith (u "http") _); [|discriminate].
    destruct (skipn 4 _) as [|c r'].
    - destruct (startswith (u "://") []); [|discriminate].
      injection E2 as <- _. vm_compute. reflexivity.
    - destruct (char_eqb c (chr "s")) eqn:Ec.
      + destruct (startswith (u "://") r'); [|discriminate].
        injection E2 as <- _. apply char_eqb_eq in Ec. subst c.
        vm_compute. reflexivity.
      + destruct (startswith (u "://") (c :: r')); [|discriminate].
        injection E2 as <- _. vm_compute. reflexivity. }
  split; [|split; [|split; [|split; [|split]]]].
  - exists r4. rewrite old_link_cons.
    repeat (cbn [app]; rewrite <- app_assoc). cbn [app]. reflexivity.
  - rewrite old_link_cons. cbn [length]. rewrite !length_app. cbn [length].
    rewrite !length_app. cbn [length]. lia.
  - discriminate.
  - exact Ht.
  - now rewrite lacks_app, Hsch, Hr.
  - apply startswith_iff in Hh. destruct Hh as [x ->].
    rewrite <- app_assoc. apply startswith_app.
Qed.

Section ScanMore.
Variable A : Type.
Variable m : str -> option (A * nat).

Lemma scan_from_skipn (s : str) :
  forall k, k <= length s ->
    Re.scan_from m k s = Re.scan_from m 0 (skipn k s).
Proof.
  induction s as [|c r IH]; intros [|k] Hk; try reflexivity.
  cbn [Re.scan_from skipn]. apply IH. cbn in Hk. lia.
Qed.

Lemma hits_scan_from_all (P : A -> Prop) :
  (forall s a n, m s = Some (a, n) -> P a) ->
  forall s k, Forall P (Re.hits (Re.scan_from m k s)).
Proof.
  intros HP. induction s as [|c r IH]; intros k; [constructor|].
  cbn [Re.scan_from]. destruct k as [|k]; [|apply IH].
  destruct (m (c :: r)) as [[a n]|] eqn:E; cbn [Re.hits]; [|apply IH].
  constructor; [now apply (HP _ _ _ E) | apply IH].
Qed.

(** Putting back the text of each match gives back the subject. *)
Lemma subst_scan_id (g : A -> str) :
  (forall s a n, m s = Some (a, n) ->
                 g a = firstn (S n) s /\ S n <= length s) ->
  forall s, Re.subst g (Re.scan m s) = s.
Proof.
  intros Hm s. unfold Re.scan.
  remember (length s) as len eqn:Hlen.
  revert s Hlen. induction len as [len IH] using lt_wf_ind. intros s Hlen.
  destruct s as [|c r]; [reflexivity|].
  cbn [Re.scan_from]. destruct (m (c :: r)) as [[a n]|] eqn:E.
  - destruct (Hm _ _ _ E) as [Hg Hn]. cbn [length] in Hn.
    rewrite scan_from_skipn by lia. cbn [Re.subst].
    rewrite (IH (length (skipn n r))); [| |reflexivity].
    + rewrite Hg. cbn [firstn]. cbn [app]. now rewrite firstn_skipn.
    + subst len. rewrite length_skipn. cbn [length]. lia.
  - cbn [Re.subst]. f_equal. apply (IH (length r)); [|reflexivity].
    subst len. cbn [length]. lia.
Qed.
End ScanMore.

Lemma link_match_group0 (s : str) (a : str * str * str) (n : nat) :
  AlphaRadar.link_match s = Some (a, n) ->
  group0 a = firstn (S n) s /\ S n <= length s
  /\ group0 a = old_link (fst (groups a)) (snd (groups a))
  /\ startswith (u "http") (snd (groups a)) = true.
Proof.
  unfold AlphaRadar.link_match.
  destruct (link_pattern s) as [[[t url] n']|] eqn:E; [|discriminate].
  intros H. injection H as <- <-.
  destruct (link_pattern_inv _ E) as ([rest Hs] & Hn & _ & _ & _ & Hh).
  cbn [group0 groups fst snd]. split; [reflexivity|].
  split; [rewrite Hs, length_app; lia|]. split; [|exact Hh].
  change (firstn (S n') s = old_link t url).
  rewrite Hs, Hn. rewrite firstn_app, firstn_all, Nat.sub_diag.
  cbn [firstn]. apply app_nil_r.
Qed.

Lemma hits_link_match (s : str) :
  forall k,
    map groups (Re.hits (Re.scan_from AlphaRadar.link_match k s))
    = Re.hits (Re.scan_from link_pattern k s).
Proof.
  induction s as [|c r IH]; intros k; [reflexivity|].
  cbn [Re.scan_from]. destruct k as [|k]; [|apply IH].
  unfold AlphaRadar.link_match at 1.
  destruct (link_pattern (c :: r)) as [[[t url] n]|]; cbn [Re.hits map];
    [|apply IH].
  cbn [groups]. f_equal. apply IH.
Qed.

Lemma link_match_led (c : char) (s : str) :
  c <> chr "[" -> AlphaRadar.link_match (c :: s) = None.
Proof.
  intros Hc. unfold AlphaRadar.link_match.
  now rewrite (link_pattern_bracket_led s Hc).
Qed.

Lemma alpha_link_old (t url : str) :
  u "[" ++ t ++ u "](" ++ url ++ u ") **(⚠️ 自动核实: 链接无效/404)**"
  = old_link t url ++ alpha_warning.
Proof.
  assert (E : u ") **(⚠️ 自动核实: 链接无效/404)**" = u ")" ++ alpha_warning)
    by (vm_compute; reflexivity).
  unfold old_link. rewrite E, !app_assoc. reflexivity.
Qed.

Section AlphaProps.
Variables World Exn : Type.
Variable str_of_exn : Exn -> str.
Variables http_head http_get : str -> M World Exn Z.

Let repl := AlphaRadar.verify_match quiet quiet str_of_exn http_head http_get.

Lemma sub_with_lits (a : str) (ps : list (Re.piece (str * str * str)))
    (w : World) :
  AlphaRadar.sub_with repl (map Re.Lit a ++ ps) w
  = match AlphaRadar.sub_with repl ps w with
    | (Return rest, w') => (Return (a ++ rest), w')
    | (Raise e, w') => (Raise e, w')
    end.
Proof.
  induction a as [|c a IH]; cbn [map app AlphaRadar.sub_with].
  - now destruct (AlphaRadar.sub_with repl ps w) as [[rest|e] w'].
  - unfold bind, ret. rewrite IH.
    now destruct (AlphaRadar.sub_with repl ps w) as [[rest|e] w'].
Qed.

(** [verify_match] on a match of the pattern. *)
Lemma verify_match_cases (a : str * str * str) (w : World) :
  startswith (u "http") (snd (groups a)) = true ->
  exists ok w1,
    verify_link quiet str_of_exn http_head http_get (snd (groups a)) w =
        (Return ok, w1)
    /\ repl a w
       = (Return (if ok then group0 a
                  else old_link (fst (groups a)) (snd (groups a))
                       ++ alpha_warning), w1).
Proof.
  destruct a as [[g t] url]. cbn [groups group0 fst snd]. intros Hh.
  destruct (verify_link_returns str_of_exn http_head http_get url w) as (ok & w1 & Ev).
  exists ok, w1. split; [exact Ev|].
  unfold repl, AlphaRadar.verify_match. rewrite Hh. cbn [negb].
  rewrite bind_quiet. unfold bind at 1. rewrite Ev.
  destruct ok; rewrite bind_quiet; [reflexivity|].
  unfold ret. now rewrite alpha_link_old.
Qed.

Lemma sub_all_live (ps : list (Re.piece (str * str * str))) :
  (forall url w, exists w', verify_link quiet str_of_exn http_head http_get
      url w = (Return true,
          w')) ->
  forall w, exists w',
    AlphaRadar.sub_with repl ps w = (Return (Re.subst group0 ps), w').
Proof.
  intros Hlive. induction ps as [|[c|[[g t] url]] ps IH]; intros w.
  - now exists w.
  - cbn [AlphaRadar.sub_with Re.subst]. unfold bind, ret.
    destruct (IH w) as (w' & ->). now exists w'.
  - cbn [AlphaRadar.sub_with Re.subst group0]. unfold bind at 1.
    assert (Hr : exists w1, repl (g, t, url) w = (Return g, w1)).
    { unfold repl, AlphaRadar.verify_match.
      destruct (negb (startswith (u "http") url)); [now exists w|].
      rewrite bind_quiet. unfold bind at 1.
      destruct (Hlive url w) as (w1 & ->). now exists w1. }
    destruct Hr as (w1 & ->). unfold bind, ret.
    destruct (IH w1) as (w' & ->). now exists w'.
Qed.

Lemma alpha_links (ls : list (str * str * str)) :
  forallb wf_link ls = true ->
  forall w, exists es w',
    check_each quiet str_of_exn http_head http_get ls w = (Return es, w')
    /\ AlphaRadar.sub_with repl
         (Re.scan AlphaRadar.link_match (render (plain ls))) w
       = (Return (render_with alpha_warning es), w')
    /\ skeleton es = ls
    /\ Forall (fun e => marks e <= 1) es.
Proof.
  induction ls as [|[[t url] seg] ls IH]; intros Hls w.
  - exists [], w. repeat split; constructor.
  - cbn [forallb] in Hls. rewrite andb_true_iff in Hls.
    destruct Hls as [Hl Hls].
    destruct (@wf_link_parts _ _ _ Hl) as (Ht & Hu & Hseg).
    change (plain ((t, url, seg) :: ls)) with ((t, url, 0, seg) :: plain ls).
    cbn [render warnings app check_each].
    pose proof (link_pattern_link t url (seg ++ render (plain ls)) Ht Hu)
      as Hp.
    assert (Hm : AlphaRadar.link_match
                   (chr "[" :: (t ++ chr "]" :: chr "(" :: url ++ [chr ")"])
                      ++ seg ++ render (plain ls))
                 = Some ((old_link t url, t, url),
                         length (t ++ chr "]" :: chr "("
                                   :: url ++ [chr ")"]))).
    { rewrite app_comm_cons, <- old_link_cons.
      pose proof (link_match_group0 (old_link t url ++ seg ++ render (plain ls)))
        as Hg.
      unfold AlphaRadar.link_match in *. rewrite Hp in *.
      destruct (Hg _ _ eq_refl) as (_ & _ & Hg0 & _).
      cbn [group0 groups fst snd] in Hg0. now rewrite Hg0. }
    change (Re.scan AlphaRadar.link_match
              (old_link t url ++ seg ++ render (plain ls)))
      with (Re.scan AlphaRadar.link_match
              (chr "[" :: (t ++ chr "]" :: chr "(" :: url ++ [chr ")"])
                 ++ seg ++ render (plain ls))).
    rewrite (@scan_hit _ _ _ _ _ _ Hm).
    rewrite (@scan_lits _ _ link_match_led _ _ Hseg).
    cbn [AlphaRadar.sub_with]. unfold bind at 1 3.
    assert (Hh : startswith (u "http") (snd (groups (old_link t url, t, url)))
                 = true).
    { cbn [groups snd]. destruct (@wf_url_parts _ Hu) as (_ & _ & sch & body & Hs & _).
      pose proof (scheme_http _ Hs) as Hh.
      destruct (scheme_app _ Hs) as [-> _].
      apply startswith_iff in Hh. destruct Hh as [x ->].
      rewrite <- app_assoc. apply startswith_app. }
    destruct (verify_match_cases (old_link t url, t, url) w Hh)
      as (ok & w1 & Ev & ->).
    cbn [groups group0 fst snd] in Ev |- *. rewrite Ev.
    destruct (IH Hls w1) as (es & w' & Ec & Es & Hsk & Hmk).
    exists ((t, url, (if ok then 0 else 1), seg) :: es), w'.
    unfold bind, ret. rewrite Ec, sub_with_lits, Es.
    split; [reflexivity|]. split; [|split].
    + cbn [render_with]. destruct ok; cbn [marks_of app];
        now rewrite <- ?app_assoc, ?app_nil_r.
    + cbn [skeleton map]. f_equal. exact Hsk.
    + constructor; [destruct ok; cbn; lia | exact Hmk].
Qed.
End AlphaProps.

Section AlphaConsole.
Variables World Exn : Type.
Variables print print_inline : str -> M World Exn unit.
Variable str_of_exn : Exn -> str.
Variables http_head http_get : str -> M World Exn Z.
Variables print' print_inline'
  : str -> M (World * list (method * str)) Exn unit.
Hypothesis print_beside :
  forall s w tr, print' s (w, tr) = beside (print s) (w, tr).
Hypothesis print_inline_beside :
  forall s w tr, print_inline' s (w, tr) = beside (print_inline s) (w, tr).

(** The requests of [re.sub] with [verify_match], recorded. *)
Lemma sub_tracing (ps : list (Re.piece (str * str * str))) :
  Forall (fun a => startswith (u "http") (snd (groups a)) = true)
         (Re.hits ps) ->
  forall (w : World) (tr : list (method * str)),
  exists r w' sent done rest,
    AlphaRadar.sub_with
      (AlphaRadar.verify_match print' print_inline' str_of_exn
         (tracing HEAD http_head) (tracing GET http_get)) ps (w, tr)
    = (r, (w', tr ++ sent))
    /\ AlphaRadar.sub_with
         (AlphaRadar.verify_match print print_inline str_of_exn
            http_head http_get) ps w
       = (r, w')
    /\ map (fun a => snd (groups a)) (Re.hits ps) = done ++ rest
    /\ filter is_head sent = map (pair HEAD) done
    /\ Forall (fun q => In (snd q) done) sent
    /\ match r with
       | Return _ => rest = []
       | Raise e => raised_by print e \/ raised_by print_inline e
       end.
Proof.
  induction ps as [|[c|[[g t] url]] ps IH]; intros Hh w tr.
  - exists (Return []), w, [], [], []. rewrite app_nil_r.
    now repeat split.
  - cbn [Re.hits] in Hh |- *.
    destruct (IH Hh w tr)
      as (r & w' & sent & d & rest & E1 & E2 & Hd & Hf & Hin & Hr).
    cbn [AlphaRadar.sub_with]. unfold bind, ret. rewrite E1, E2.
    destruct r as [out|e].
    + exists (Return (c :: out)), w', sent, d, rest. now repeat split.
    + exists (Raise e), w', sent, d, rest. now repeat split.
  - cbn [Re.hits] in Hh |- *. inversion Hh as [|? ? Ha Hh']; subst.
    cbn [groups snd] in Ha.
    cbn [AlphaRadar.sub_with AlphaRadar.verify_match map groups snd].
    rewrite Ha. cbn [negb].
    assert (stop : forall (e : Exn) (w2 : World) sent done rest,
               url :: map (fun a => snd (groups a)) (Re.hits ps)
               = done ++ rest ->
               filter is_head sent = map (pair HEAD) done ->
               Forall (fun q => In (snd q) done) sent ->
               raised_by print e \/ raised_by print_inline e ->
               exists (r : result Exn str) w' sent' done rest,
                 (@Raise Exn str e, (w2, tr ++ sent))
                 = (r, (w', tr ++ sent'))
                 /\ (@Raise Exn str e, w2) = (r, w')
                 /\ url :: map (fun a => snd (groups a)) (Re.hits ps)
                    = done ++ rest
                 /\ filter is_head sent' = map (pair HEAD) done
                 /\ Forall (fun q => In (snd q) done) sent'
                 /\ match r with
                    | Return _ => rest = []
                    | Raise e => raised_by print e \/ raised_by print_inline e
                    end).
    { intros e w2 sent d rest Hd Hsent Hin Hre.
      exists (Raise e), w2, sent, d, rest. now repeat split. }
    rewrite !bind_assoc.
    rewrite (bind_unfold (print_inline' _)), (bind_unfold (print_inline _)).
    rewrite print_inline_beside. unfold beside at 1. cbn [fst snd].
    destruct (print_inline _ w) as [[[]|e0] w0] eqn:Ei.
    2:{ exists (Raise e0), w0, [], [],
          (url :: map (fun a => snd (groups a)) (Re.hits ps)).
        rewrite app_nil_r.
        split; [reflexivity|]. split; [reflexivity|].
        split; [reflexivity|]. split; [reflexivity|].
        split; [constructor|].
        right. do 3 eexists; exact Ei. }
    destruct (@verify_link_tracing _ _ print str_of_exn http_head http_get
                print' print_beside url w0 tr) as (r1 & w1 & Ev & Et).
    set (s1 := (HEAD, url) :: _) in *.
    assert (Hs1 : filter is_head s1 = [(HEAD, url)]).
    { unfold s1. destruct (http_head url w0) as [[c|e] w2]; [|reflexivity].
      now destruct ((c =? 200)%Z || (c =? 404)%Z). }
    assert (Hu1 : forall d, Forall (fun q => In (snd q) (url :: d)) s1).
    { intros d. unfold s1.
      destruct (http_head url w0) as [[c|e] w2];
        [destruct ((c =? 200)%Z || (c =? 404)%Z)|];
        repeat constructor. }
    cbn beta. rewrite !bind_assoc.
    rewrite (bind_unfold (verify_link print' _ _ _ _)),
      (bind_unfold (verify_link print _ _ _ _)), Ev, Et.
    destruct r1 as [ok|e1].
    2:{ apply (stop e1 w1 s1 [url]
                 (map (fun a => snd (groups a)) (Re.hits ps)));
          [reflexivity | exact Hs1 | apply Hu1 |].
        left. exact (verify_link_raises _ _ _ _ _ _ Ev). }
    assert (turn : forall (s x : str),
               exists r w' sent done rest,
                 bind (print' s)
                   (fun _ =>
                      bind
                        (AlphaRadar.sub_with
                           (AlphaRadar.verify_match print' print_inline'
                              str_of_exn (tracing HEAD http_head)
                              (tracing GET http_get)) ps)
                        (fun rest => ret (x ++ rest))) (w1, tr ++ s1)
                 = (r, (w', tr ++ sent))
                 /\ bind (print s)
                      (fun _ =>
                         bind
                           (AlphaRadar.sub_with
                              (AlphaRadar.verify_match print print_inline
                                 str_of_exn http_head http_get) ps)
                           (fun rest => ret (x ++ rest))) w1
                    = (r, w')
                 /\ url :: map (fun a => snd (groups a)) (Re.hits ps)
                    = done ++ rest
                 /\ filter is_head sent = map (pair HEAD) done
                 /\ Forall (fun q => In (snd q) done) sent
                 /\ match r with
                    | Return _ => rest = []
                    | Raise e => raised_by print e \/ raised_by print_inline e
                    end).
    { intros s x.
      rewrite (bind_unfold (print' _)), (bind_unfold (print _)).
      rewrite print_beside. unfold beside. cbn [fst snd].
      destruct (print s w1) as [[[]|e2] w2] eqn:Ep.
      - destruct (IH Hh' w2 (tr ++ s1))
          as (r & w' & s2 & d & rest & E1 & E2 & Hd & Hf & Hin & Hr).
        unfold bind, ret. rewrite E1, E2.
        assert (Hall : Forall (fun q => In (snd q) (url :: d)) (s1 ++ s2)).
        { apply Forall_app. split; [apply Hu1|].
          eapply Forall_impl; [|exact Hin]. intros q Hq. now right. }
        destruct r as [out|e].
        + exists (Return (x ++ out)), w', (s1 ++ s2), (url :: d), rest.
          rewrite app_assoc, filter_app, Hs1, Hf, Hd. now repeat split.
        + exists (Raise e), w', (s1 ++ s2), (url :: d), rest.
          rewrite app_assoc, filter_app, Hs1, Hf, Hd. now repeat split.
      - apply (stop e2 w2 s1 [url]
                 (map (fun a => snd (groups a)) (Re.hits ps)));
          [reflexivity | exact Hs1 | apply Hu1 |].
        left. do 3 eexists; exact Ep. }
    destruct ok; rewrite !bind_assoc.
    + destruct (turn (u " ✅ OK") g) as (r & w' & sent & d & rest & H).
      exists r, w', sent, d, rest. exact H.
    + destruct (turn (u " ❌ DEAD LINK")
                  (u "[" ++ t ++ u "](" ++ url
                   ++ u ") **(⚠️ 自动核实: 链接无效/404)**"))
        as (r & w' & sent & d & rest & H).
      exists r, w', sent, d, rest. exact H.
Qed.

End AlphaConsole.

(** X15.  Every link [re.findall] extracts is written in the text: the
    text holds "[title](url)" for the pair extracted, the title is not
    empty and has no [']'], and the URL starts with "http" and has no
    [')'].  So the text that the validator searches for a dead link is
    there. *)
Theorem extracted_links_occur (text : str) :
  Forall (fun p => occurs (old_link (fst p) (snd p)) text
                   /\ fst p <> []
                   /\ lacks (chr "]") (fst p) = true
                   /\ lacks (chr ")") (snd p) = true
                   /\ startswith (u "http") (snd p) = true)
         (findall_links text).
Proof.
  unfold findall_links, Re.scan.
  assert (G : forall s pre k, text = pre ++ s ->
             Forall (fun p => occurs (old_link (fst p) (snd p)) text
                              /\ fst p <> []
                              /\ lacks (chr "]") (fst p) = true
                              /\ lacks (chr ")") (snd p) = true
                              /\ startswith (u "http") (snd p) = true)
                    (Re.hits (Re.scan_from link_pattern k s))).
  { induction s as [|c r IH]; intros pre k Hs; [constructor|].
    assert (Hr : text = (pre ++ [c]) ++ r) by now rewrite <- app_assoc.
    cbn [Re.scan_from]. destruct k as [|k]; [|now apply (IH (pre ++ [c]))].
    destruct (link_pattern (c :: r)) as [[[t url] n]|] eqn:E;
      cbn [Re.hits]; [|now apply (IH (pre ++ [c]))].
    constructor; [|now apply (IH (pre ++ [c]))].
    destruct (link_pattern_inv _ E) as ([rest Hc] & _ & H1 & H2 & H3 & H4).
    cbn [fst snd]. split; [|now repeat split].
    exists pre, rest. now rewrite Hs, Hc. }
  now apply (G text []).
Qed.

(** X16.  When [verify_link] answers [true] for every URL, the
    verification of the alpha radar returns the report it was given,
    whatever the report, on a standard output that takes every text. *)
Theorem alpha_live_links_untouched (World Exn : Type)
    (str_of_exn : Exn -> str) (type_error : Exn)
    (http_head http_get : str -> M World Exn Z) :
  (forall url w, exists w', verify_link quiet str_of_exn http_head http_get
      url w = (Return true, w')) ->
  forall (report : str) (w : World),
  exists w',
    AlphaRadar.verify_report quiet quiet str_of_exn type_error
      http_head http_get (Some report) w
    = (Return report, w').
Proof.
  intros Hlive report w. unfold AlphaRadar.verify_report.
  destruct (sub_all_live str_of_exn http_head http_get
              (Re.scan AlphaRadar.link_match report) Hlive w) as (w' & E).
  exists w'. rewrite E. f_equal. f_equal.
  apply subst_scan_id. intros s a n Hm.
  destruct (link_match_group0 s Hm) as (H1 & H2 & _). now split.
Qed.

Lemma alpha_live_links_untouched_witness :
  (forall url w, exists w', verify_link quiet unit_text (answering [])
      unreachable url w = (Return true, w'))
  /\ exists w',
       AlphaRadar.verify_report quiet quiet unit_text tt
         (answering []) unreachable
         (Some (u "see [repo](https://github.com/a/b) [x")) tt
       = (Return (u "see [repo](https://github.com/a/b) [x"), w').
Proof.
  assert (H : forall url w, exists w',
               verify_link quiet unit_text (answering []) unreachable url w
               = (Return true, w')).
  { intros url w. exists w. reflexivity. }
  split; [exact H|].
  exact (@alpha_live_links_untouched unit unit unit_text tt
           (answering []) unreachable H
           (u "see [repo](https://github.com/a/b) [x") tt).
Defined.

(** X17.  In a report whose links do not nest, the alpha radar checks
    every link by itself, skipped domains included, and appends
    " **(⚠️ 自动核实: 链接无效/404)**" once after each occurrence whose own
    check answered [false], and nothing elsewhere: a link that occurs
    several times never gets more than one warning per occurrence.  The
    standard output is one that takes every text. *)
Theorem alpha_marks_each_once (World Exn : Type)
    (str_of_exn : Exn -> str) (type_error : Exn)
    (http_head http_get : str -> M World Exn Z)
    (seg0 : str) (ls : list (str * str * str)) (w : World) :
  wf_text seg0 ls = true ->
  exists es w',
    check_each quiet str_of_exn http_head http_get ls w = (Return es, w')
    /\ AlphaRadar.verify_report quiet quiet str_of_exn type_error
         http_head http_get (Some (seg0 ++ render (plain ls))) w
       = (Return (seg0 ++ render_with alpha_warning es), w')
    /\ skeleton es = ls
    /\ Forall (fun e => marks e <= 1) es.
Proof.
  unfold wf_text. rewrite andb_true_iff. intros [H0 Hls].
  destruct (alpha_links str_of_exn http_head http_get ls Hls w)
    as (es & w' & Ec & Es & Hsk & Hm).
  exists es, w'. split; [exact Ec|]. split; [|now split].
  unfold AlphaRadar.verify_report.
  rewrite (@scan_lits _ _ link_match_led _ _ H0).
  now rewrite sub_with_lits, Es.
Qed.

Lemma alpha_marks_each_once_witness :
  wf_text (u "")
    [(u "Bad", u "https://x.com/dead", u " ");
     (u "Bad", u "https://x.com/dead", u "")] = true
  /\ AlphaRadar.verify_report quiet quiet unit_text tt
       (answering [u "https://x.com/dead"]) unreachable
       (Some (u "[Bad](https://x.com/dead) [Bad](https://x.com/dead)")) tt
     = (Return (render_with alpha_warning
                  [(u "Bad", u "https://x.com/dead", 1, u " ");
                   (u "Bad", u "https://x.com/dead", 1, u "")]), tt).
Proof.
  assert (Hwf : wf_text (u "")
                  [(u "Bad", u "https://x.com/dead", u " ");
                   (u "Bad", u "https://x.com/dead", u "")] = true)
    by (vm_compute; reflexivity).
  split; [exact Hwf|].
  destruct (@alpha_marks_each_once unit unit unit_text tt
              (answering [u "https://x.com/dead"]) unreachable (u "")
              [(u "Bad", u "https://x.com/dead", u " ");
               (u "Bad", u "https://x.com/dead", u "")] tt Hwf)
    as (es & w' & Ec & Ev & _).
  vm_compute in Ec. injection Ec as <- <-.
  vm_compute in Ev. vm_compute. exact Ev.
Defined.

(** X18.  When [fetch_grok_intel] returned [None], the [re.sub] of the
    alpha radar raises [TypeError] before any request.  On a report it
    calls [verify_link], one HEAD request each time, for the URL of every
    link it finds, in the order of the report: its test on the start of
    the URL never lets a link through unchecked, and it has no list of
    skipped domains.  When it returns it has checked them all; it raises
    only what one of its [print] calls raises, and has then checked the
    first of them.  Recording the requests changes neither the outcome
    nor the world it leaves. *)
Theorem alpha_head_requests (World Exn : Type)
    (print print_inline : str -> M World Exn unit)
    (str_of_exn : Exn -> str) (type_error : Exn)
    (http_head http_get : str -> M World Exn Z)
    (w : World) (tr : list (method * str)) :
  AlphaRadar.verify_report (fun s => beside (print s))
    (fun s => beside (print_inline s)) str_of_exn type_error
    (tracing HEAD http_head) (tracing GET http_get) None (w, tr)
  = (Raise type_error, (w, tr))
  /\ forall report : str,
     exists r w' sent done rest,
       AlphaRadar.verify_report (fun s => beside (print s))
         (fun s => beside (print_inline s)) str_of_exn type_error
         (tracing HEAD http_head) (tracing GET http_get) (Some report) (w, tr)
       = (r, (w', tr ++ sent))
       /\ AlphaRadar.verify_report print print_inline str_of_exn type_error
            http_head http_get (Some report) w
          = (r, w')
       /\ map snd (findall_links report) = done ++ rest
       /\ filter is_head sent = map (pair HEAD) done
       /\ Forall (fun q => In (snd q) done) sent
       /\ match r with
          | Return _ => rest = []
          | Raise e => raised_by print e \/ raised_by print_inline e
          end.
Proof.
  split; [reflexivity|]. intros report.
  unfold AlphaRadar.verify_report.
  destruct (@sub_tracing _ _ print print_inline str_of_exn http_head http_get
              (fun s => beside (print s)) (fun s => beside (print_inline s))
              (fun _ _ _ => eq_refl) (fun _ _ _ => eq_refl)
              (Re.scan AlphaRadar.link_match report)) with (w := w) (tr := tr)
    as (r & w' & sent & d & rest & E1 & E2 & Hd & Hf & Hin & Hr).
  - apply hits_scan_from_all. intros s a n Hm.
    now destruct (link_match_group0 s Hm) as (_ & _ & _ & H).
  - exists r, w', sent, d, rest.
    split; [exact E1|]. split; [exact E2|].
    split; [|now repeat split].
    rewrite <- Hd. unfold findall_links, Re.scan.
    rewrite <- hits_link_match, !map_map. reflexivity.
Qed.

(* ================================================================= *)
(** ** Properties of the Grok sensor and of the social block *)

Lemma error_in_no_key : contains (u "Error") (u "Error: No API Key.") = true.
Proof. vm_compute. reflexivity. Qed.

Lemma error_in_api_error (rest : str) :
  contains (u "Error") (u "⚠️ API Error: " ++ rest) = true.
Proof.
  apply contains_iff. exists (u "⚠️ API "), (u ": " ++ rest).
  assert (E : u "⚠️ API Error: " = u "⚠️ API " ++ u "Error" ++ u ": ")
    by (vm_compute; reflexivity).
  rewrite E, <- !app_assoc. reflexivity.
Qed.

Lemma error_in_connection_error (rest : str) :
  contains (u "Error") (u "⚠️ Connection Error: " ++ rest) = true.
Proof.
  apply contains_iff. exists (u "⚠️ Connection "), (u ": " ++ rest).
  assert (E : u "⚠️ Connection Error: "
              = u "⚠️ Connection " ++ u "Error" ++ u ": ")
    by (vm_compute; reflexivity).
  rewrite E, <- !app_assoc. reflexivity.
Qed.

Lemma unusable_error (s : str) :
  contains (u "Error") s = true -> Grok.usable (Some s) = false.
Proof.
  intros H. destruct s as [|c s]; [reflexivity|].
  unfold Grok.usable. apply negb_false_iff. exact H.
Qed.

(** [fetch_grok_intel] on a standard output that takes every text. *)
Lemma fetch_quiet (World Exn : Type)
    (status_error : Exn -> option (Z * str)) (str_of_exn : Exn -> str)
    (key : bool) (post : str -> option str -> M World Exn (option str))
    (query : str) (prompt : option str) (w : World) :
  Grok.fetch_grok_intel quiet status_error str_of_exn key post query prompt w
  = if key then
      match post query prompt w with
      | (Return content, w1) => (Return content, w1)
      | (Raise e, w1) =>
          (Return
             (Some
                match status_error e with
                | Some (status_code, text) =>
                    u "⚠️ API Error: " ++ str_of_int status_code
                    ++ u " - " ++ text
                | None => u "⚠️ Connection Error: " ++ str_of_exn e
                end), w1)
      end
    else (Return (Some (u "Error: No API Key.")), w).
Proof.
  unfold Grok.fetch_grok_intel. destruct key; cbn [negb]; [|reflexivity].
  rewrite bind_quiet. unfold try_except. rewrite bind_unfold.
  destruct (post query prompt w) as [[c|e] w1]; [reflexivity|].
  now destruct (status_error e) as [[code text]|].
Qed.

Lemma fetch_beside (World Exn T : Type)
    (status_error : Exn -> option (Z * str)) (str_of_exn : Exn -> str)
    (key : bool) (post : str -> option str -> M World Exn (option str))
    (query : str) (prompt : option str) (w : World) (tr : T) :
  Grok.fetch_grok_intel quiet status_error str_of_exn key
    (fun q p => beside (post q p)) query prompt (w, tr)
  = let '(r, w') := Grok.fetch_grok_intel quiet status_error str_of_exn key
                      post query prompt w in
    (r, (w', tr)).
Proof.
  rewrite !fetch_quiet. destruct key; [|reflexivity].
  unfold beside. cbn [fst snd].
  now destruct (post query prompt w) as [[c|e] w1].
Qed.

Lemma grok_returns (World Exn : Type)
    (status_error : Exn -> option (Z * str)) (str_of_exn : Exn -> str)
    (key : bool) (post : str -> option str -> M World Exn (option str))
    (query : str) (prompt : option str) (w : World) :
  exists r w',
    Grok.fetch_grok_intel quiet status_error str_of_exn key post query
      prompt w
    = (Return r, w').
Proof.
  rewrite fetch_quiet. destruct key; [|now do 2 eexists].
  destruct (post query prompt w) as [[c|e] w1]; now do 2 eexists.
Qed.

(** The validator and its requests on a standard output that takes
    every text. *)
Lemma validate_tracing_quiet (World Exn : Type) (str_of_exn : Exn -> str)
    (http_head http_get : str -> M World Exn Z) (available : bool)
    (text : str) (w : World) (tr : list (method * str)) :
  exists out w' sent,
    validate_grok_report quiet str_of_exn (tracing HEAD http_head)
      (tracing GET http_get) available text (w, tr)
    = (Return out, (w', tr ++ sent))
    /\ validate_grok_report quiet str_of_exn http_head http_get available
         text w
       = (Return out, w').
Proof.
  destruct (@validate_tracing _ _ quiet str_of_exn http_head http_get
              quiet (fun _ _ _ => eq_refl) available text w tr)
    as (r & w' & sent & d & rest & E1 & E2 & _ & _ & _ & _ & Hr).
  destruct r as [out|e]; [now exists out, w', sent|].
  now destruct (accepting_not_raised (@quiet_accepting World Exn) Hr).
Qed.

(** X19.  What [fetch_grok_intel] returns is the content of the answer
    of the API, or a message that holds the word "Error", which is what
    the collector tests: "Error: No API Key." without a key, and the
    message of a handler for every exception raised inside the [try], by
    the request, the status check, the decoding or a [print] (that of
    the content among them).  So the collector takes no message for a
    report.  It raises only what a [print] outside the [try] or in a
    handler raises; on a standard output that takes every text it
    returns. *)
Theorem grok_failures_say_error (World Exn : Type)
    (print : str -> M World Exn unit)
    (status_error : Exn -> option (Z * str)) (str_of_exn : Exn -> str)
    (XAI_API_KEY : bool)
    (post : str -> option str -> M World Exn (option str))
    (query : str) (override_prompt : option str) (w : World) :
  ((exists r w',
       Grok.fetch_grok_intel print status_error str_of_exn XAI_API_KEY post
         query override_prompt w = (Return r, w')
       /\ ((XAI_API_KEY = true
            /\ exists w0 w1, post query override_prompt w0 = (Return r, w1))
           \/ (exists s, r = Some s /\ contains (u "Error") s = true
                         /\ Grok.usable r = false)))
   \/ (exists e w',
         Grok.fetch_grok_intel print status_error str_of_exn XAI_API_KEY post
           query override_prompt w = (Raise e, w')
         /\ raised_by print e))
  /\ (accepting print ->
      exists r w',
        Grok.fetch_grok_intel print status_error str_of_exn XAI_API_KEY post
          query override_prompt w = (Return r, w')).
Proof.
  assert (outcome :
    (exists r w',
        Grok.fetch_grok_intel print status_error str_of_exn XAI_API_KEY post
          query override_prompt w = (Return r, w')
        /\ ((XAI_API_KEY = true
             /\ exists w0 w1, post query override_prompt w0 = (Return r, w1))
            \/ (exists s, r = Some s /\ contains (u "Error") s = true
                          /\ Grok.usable r = false)))
    \/ (exists e w',
          Grok.fetch_grok_intel print status_error str_of_exn XAI_API_KEY post
            query override_prompt w = (Raise e, w')
          /\ raised_by print e)).
  { unfold Grok.fetch_grok_intel.
    assert (message : forall (p s : str) (w1 : World),
               contains (u "Error") s = true ->
               (exists r w',
                   bind (print p) (fun _ => ret (Some s)) w1 = (Return r, w')
                   /\ ((XAI_API_KEY = true
                        /\ exists w0 w2,
                             post query override_prompt w0 = (Return r, w2))
                       \/ (exists s, r = Some s
                                     /\ contains (u "Error") s = true
                                     /\ Grok.usable r = false)))
               \/ (exists e w',
                     bind (print p) (fun _ => @ret World Exn _ (Some s)) w1
                     = (Raise e, w')
                     /\ raised_by print e)).
    { intros p s w1 Hs. rewrite bind_unfold.
      destruct (print p w1) as [[[]|e] w2] eqn:Ep.
      - left. exists (Some s), w2. split; [reflexivity|]. right.
        exists s. split; [reflexivity|]. split; [exact Hs|].
        now apply unusable_error.
      - right. exists e, w2. split; [reflexivity|].
        do 3 eexists; exact Ep. }
    assert (handler : forall (e : Exn) (w1 : World),
               (exists r w',
                   match status_error e with
                   | Some (status_code, text) =>
                       bind (print (u "⚠️ API Error: "
                                    ++ str_of_int status_code
                                    ++ u " - " ++ text))
                         (fun _ => ret (Some (u "⚠️ API Error: "
                                              ++ str_of_int status_code
                                              ++ u " - " ++ text)))
                   | None =>
                       bind (print (u "⚠️ Connection Error: "
                                    ++ str_of_exn e))
                         (fun _ => ret (Some (u "⚠️ Connection Error: "
                                              ++ str_of_exn e)))
                   end w1 = (Return r, w')
                   /\ ((XAI_API_KEY = true
                        /\ exists w0 w2,
                             post query override_prompt w0 = (Return r, w2))
                       \/ (exists s, r = Some s
                                     /\ contains (u "Error") s = true
                                     /\ Grok.usable r = false)))
               \/ (exists e' w',
                     match status_error e with
                     | Some (status_code, text) =>
                         bind (print (u "⚠️ API Error: "
                                      ++ str_of_int status_code
                                      ++ u " - " ++ text))
                           (fun _ => ret (Some (u "⚠️ API Error: "
                                                ++ str_of_int status_code
                                                ++ u " - " ++ text)))
                     | None =>
                         bind (print (u "⚠️ Connection Error: "
                                      ++ str_of_exn e))
                           (fun _ => ret (Some (u "⚠️ Connection Error: "
                                                ++ str_of_exn e)))
                     end w1 = (Raise e', w')
                     /\ raised_by print e')).
    { intros e w1. destruct (status_error e) as [[code text]|].
      - apply message, error_in_api_error.
      - apply message, error_in_connection_error. }
    destruct XAI_API_KEY; cbn [negb].
    2:{ exact (message _ _ w error_in_no_key). }
    rewrite bind_unfold.
    destruct (print _ w) as [[[]|e0] w0] eqn:Ep0.
    2:{ right. exists e0, w0. split; [reflexivity|].
        do 3 eexists; exact Ep0. }
    unfold try_except. rewrite bind_unfold.
    destruct (post query override_prompt w0) as [[content|e] w1] eqn:Epost;
      [|apply handler].
    rewrite bind_unfold.
    destruct (print _ w1) as [[[]|e1] w2]; [|apply handler].
    rewrite bind_unfold.
    destruct (print _ w2) as [[[]|e2] w3]; [|apply handler].
    rewrite bind_unfold.
    destruct (print _ w3) as [[[]|e3] w4]; [|apply handler].
    rewrite bind_unfold.
    destruct (print _ w4) as [[[]|e4] w5]; [|apply handler].
    left. exists content, w5. split; [reflexivity|]. left.
    split; [reflexivity|]. now exists w0, w1. }
  split; [exact outcome|]. intros Ha.
  destruct outcome as [(r & w' & E & _) | (e & w' & _ & Hr)];
    [now exists r, w'|].
  now destruct (accepting_not_raised Ha Hr).
Qed.

(** An answer whose content holds a lone surrogate: [print(content)]
    raises inside the [try], and the sensor returns the message of its
    handler in place of the content. *)
Example grok_print_content_raises :
  Grok.fetch_grok_intel utf8_console (fun _ => None) exn_text true
    (fun _ _ w => (Return (Some [55296%N]), w)) (u "AI Agents") None tt
  = (Return (Some (u "⚠️ Connection Error: surrogates not allowed")), tt).
Proof. vm_compute. reflexivity. Qed.

(** X20.  On a standard output that takes every text, the social block
    of [fetch_all_sources] returns and adds at most one entry.  When
    Grok gives no usable report ([None], an empty text, or a text that
    holds "Error" anywhere, as all the messages of the sensor do) it adds
    nothing and no link is requested; when the report is usable the
    entry added holds what [validate_grok_report] returns for it. *)
Theorem social_needs_usable_report (World Exn : Type)
    (status_error : Exn -> option (Z * str)) (str_of_exn : Exn -> str)
    (XAI_API_KEY : bool)
    (post : str -> option str -> M World Exn (option str))
    (http_head http_get : str -> M World Exn Z)
    (VERIFIER_AVAILABLE GROK_AVAILABLE : bool)
    (w : World) (tr : list (method * str)) :
  exists entries w' sent,
    Grok.social quiet status_error str_of_exn XAI_API_KEY
      (fun q p => beside (post q p))
      (tracing HEAD http_head) (tracing GET http_get)
      VERIFIER_AVAILABLE GROK_AVAILABLE (w, tr)
    = (Return entries, (w', tr ++ sent))
    /\ length entries <= 1
    /\ forall r w1,
         Grok.fetch_grok_intel quiet status_error str_of_exn XAI_API_KEY post
           (u "AI Agents, LLM, Tech Startups") None w = (Return r, w1) ->
         if GROK_AVAILABLE && Grok.usable r then
           exists report validated,
             r = Some report
             /\ validate_grok_report quiet str_of_exn http_head http_get
                  VERIFIER_AVAILABLE report w1
                = (Return validated, w')
             /\ entries = [Grok.mkSocialEntry (u "X (via Grok)") (u "X/Grok")
                             validated (u "markdown_report")]
         else entries = [] /\ sent = [].
Proof.
  unfold Grok.social, Grok.social_block.
  destruct GROK_AVAILABLE; cbn [andb].
  2:{ exists [], w, []. rewrite app_nil_r. split; [reflexivity|].
      split; [cbn; lia|]. now intros. }
  rewrite bind_unfold. unfold beside at 1. cbn [fst snd quiet].
  unfold try_except. rewrite bind_unfold. unfold beside at 1. cbn [fst snd].
  rewrite fetch_beside.
  destruct (@grok_returns World Exn status_error str_of_exn XAI_API_KEY post
              (u "AI Agents, LLM, Tech Startups") None w) as (r & w1 & Ef).
  rewrite Ef.
  destruct (Grok.usable r) eqn:Hu.
  - destruct r as [report|]; [|discriminate Hu].
    rewrite bind_unfold. unfold beside at 1. cbn [fst snd].
    destruct (validate_tracing_quiet str_of_exn http_head http_get
                VERIFIER_AVAILABLE report w1 tr) as (v & w' & sent & Ev & Ep).
    rewrite Ev.
    eexists; exists w', sent. split; [reflexivity|]. split; [cbn; lia|].
    intros r' w1' E. injection E as <- <-. rewrite Hu.
    exists report, v. now repeat split.
  - exists [], w1, []. rewrite app_nil_r.
    split; [reflexivity|]. split; [cbn; lia|].
    intros r' w1' E. injection E as <- <-. now rewrite Hu.
Qed.
